(** * The FIPS service indicator of AWS-LC

    A shallow embedding of
    [crypto/fipsmodule/service_indicator/service_indicator.c]: the
    thread-local indicator state, the lock / unlock / update primitives,
    the before / after snapshot protocol, and the verification functions
    that decide whether a completed operation is FIPS approved.

    C integers are integers of [Z]; the wrap-around of [uint64_t]
    arithmetic is written out with [u64].  A C function is a function of
    the state of the calling thread which either aborts the process or
    returns a value together with the thread's new state. *)

From Stdlib Require Import ZArith List Lia Bool Sorted.
Import ListNotations.
Open Scope Z_scope.

(** ** Machine integers *)

Definition UINT64_MAX : Z := 2 ^ 64 - 1.

(** The value an arithmetic result takes once stored in a [uint64_t] (also
    [size_t] on the 64-bit targets of the library). *)
Definition u64 (z : Z) : Z := z mod 2 ^ 64.

(** The value a [size_t] takes once cast to [int]. *)
Definition int_of_size_t (z : Z) : Z := (z + 2 ^ 31) mod 2 ^ 32 - 2 ^ 31.

(** The value an [int] takes once converted to [size_t]. *)
Definition size_t_of_int (z : Z) : Z := u64 z.

(** C truth of an [int]. *)
Definition c_true (z : Z) : bool := negb (z =? 0).

Definition in_u64 (z : Z) : Prop := 0 <= z <= UINT64_MAX.

(** ** The state of a thread *)

Definition STATE_UNLOCKED : Z := 0.

(** [struct fips_service_indicator_state]. *)
Record fips_service_indicator_state : Type := mk_indicator {
  lock_state : Z;   (* uint64_t: number of times the indicator is locked *)
  counter : Z       (* uint64_t: incremented when an approved service completes *)
}.

(** Entries of the error queue, as [OPENSSL_PUT_ERROR (library, reason)]
    leaves them. *)
Inductive err_library : Type :=
| ERR_LIB_CRYPTO
| ERR_LIB_EVP
| ERR_LIB_RSA
| ERR_LIB_OTHER (n : Z).

Inductive err_reason : Type :=
| ERR_R_MALLOC_FAILURE
| ERR_R_INTERNAL_ERROR
| ERR_R_OTHER (n : Z).

Inductive err : Type := ERR (lib : err_library) (reason : err_reason).

(** What a thread owns: the slot
    [AWSLC_THREAD_LOCAL_FIPS_SERVICE_INDICATOR_STATE] of its thread-local
    storage ([None] is the NULL the slot holds before the first use) and
    its error queue, oldest entry first. *)
Record thread : Type := mk_thread {
  tls_indicator : option fips_service_indicator_state;
  err_queue : list err
}.

(** The two library calls of [service_indicator_get] that can fail, and
    whether they succeed during one call of a function of this file.  Each
    such function reaches [service_indicator_get] at most once. *)
Record alloc : Type := mk_alloc {
  malloc_ok : bool;             (* OPENSSL_malloc returns non-NULL *)
  set_thread_local_ok : bool    (* CRYPTO_set_thread_local returns 1 *)
}.

Definition fresh_thread : thread := mk_thread None [].

Definition well_formed (t : thread) : Prop :=
  match tls_indicator t with
  | Some i => in_u64 (lock_state i) /\ in_u64 (counter i)
  | None => True
  end.

(** ** Functions that may abort *)

Inductive outcome (A : Type) : Type :=
| Aborted
| Returned (a : A) (t : thread).
Arguments Aborted {A}.
Arguments Returned {A} a t.

Definition M (A : Type) : Type := thread -> outcome A.

Definition ret {A} (a : A) : M A := fun t => Returned a t.

Definition bind {A B} (m : M A) (k : A -> M B) : M B :=
  fun t => match m t with
           | Aborted => Aborted
           | Returned a t' => k a t'
           end.

Notation "x <- m ;; k" := (bind m (fun x => k))
  (at level 61, m at next level, right associativity).
Notation "m ;; k" := (bind m (fun _ => k))
  (at level 61, right associativity).

Definition abort {A} : M A := fun _ => Aborted.

(** ** The collaborators of [service_indicator_get]

    Thread-local storage, allocation and the error queue are collaborators
    of the subsystem; the source only calls them. *)

(** Modelled from the spec: reading the thread-local slot. *)
Definition CRYPTO_get_thread_local : M (option fips_service_indicator_state) :=
  fun t => Returned (tls_indicator t) t.

(** Modelled from the spec: raising a diagnostic error appends it to the
    error queue of the thread. *)
Definition OPENSSL_PUT_ERROR (lib : err_library) (reason : err_reason) : M unit :=
  fun t => Returned tt (mk_thread (tls_indicator t) (err_queue t ++ [ERR lib reason])).

(** Modelled from the spec: clearing the diagnostic errors empties the
    queue. *)
Definition ERR_clear_error : M unit :=
  fun t => Returned tt (mk_thread (tls_indicator t) []).

(** A write through the pointer [service_indicator_get] returned.  That
    pointer is the one the thread-local slot holds, so the write is a write
    to the slot. *)
Definition store_indicator (i : fips_service_indicator_state) : M unit :=
  fun t => Returned tt (mk_thread (Some i) (err_queue t)).

(** Modelled from the spec: [CRYPTO_set_thread_local] registers the value
    on success and leaves the slot as it was on failure. *)
Definition CRYPTO_set_thread_local (e : alloc)
    (i : fips_service_indicator_state) : M bool :=
  if set_thread_local_ok e
  then (store_indicator i ;; ret true)
  else ret false.

(** ** The indicator state and its primitives (AWSLC_FIPS build) *)

Definition service_indicator_get (e : alloc)
    : M (option fips_service_indicator_state) :=
  indicator <- CRYPTO_get_thread_local ;;
  match indicator with
  | Some i => ret (Some i)
  | None =>
      if malloc_ok e then
        let i := mk_indicator STATE_UNLOCKED 0 in
        ok <- CRYPTO_set_thread_local e i ;;
        if ok : bool then ret (Some i)
        else (OPENSSL_PUT_ERROR ERR_LIB_CRYPTO ERR_R_INTERNAL_ERROR ;; ret None)
      else (OPENSSL_PUT_ERROR ERR_LIB_CRYPTO ERR_R_MALLOC_FAILURE ;; ret None)
  end.

Definition service_indicator_get_counter (e : alloc) : M Z :=
  indicator <- service_indicator_get e ;;
  match indicator with
  | None => ret 0
  | Some i => ret (counter i)
  end.

Definition FIPS_service_indicator_before_call (e : alloc) : M Z :=
  service_indicator_get_counter e.

Definition FIPS_service_indicator_after_call (e : alloc) : M Z :=
  service_indicator_get_counter e.

Definition FIPS_service_indicator_update_state (e : alloc) : M unit :=
  indicator <- service_indicator_get e ;;
  match indicator with
  | Some i =>
      if lock_state i =? STATE_UNLOCKED
      then store_indicator (mk_indicator (lock_state i) (u64 (counter i + 1)))
      else ret tt
  | None => ret tt
  end.

Definition FIPS_service_indicator_lock_state (e : alloc) : M unit :=
  indicator <- service_indicator_get e ;;
  match indicator with
  | None => ret tt
  | Some i =>
      let new_state := u64 (lock_state i + 1) in
      if new_state <? lock_state i
      then abort
      else store_indicator (mk_indicator new_state (counter i))
  end.

Definition FIPS_service_indicator_unlock_state (e : alloc) : M unit :=
  indicator <- service_indicator_get e ;;
  match indicator with
  | None => ret tt
  | Some i =>
      if lock_state i =? 0
      then abort
      else store_indicator (mk_indicator (u64 (lock_state i - 1)) (counter i))
  end.

(** ** Identifiers of the collaborating headers *)

(** The source names digests, curves, ciphers, key types and padding modes
    by constants that [openssl/nid.h], [openssl/evp.h] and [openssl/rsa.h]
    declare, not the file embedded here.  The spec treats each family as a
    closed set of distinct names.  Each constant is given the number those
    headers give it; only their being distinct matters below. *)

(** Modelled from the spec: the digest identifiers. *)
Definition NID_md5 : Z := 4.
Definition NID_sha1 : Z := 64.
Definition NID_md5_sha1 : Z := 114.
Definition NID_sha256 : Z := 672.
Definition NID_sha384 : Z := 673.
Definition NID_sha512 : Z := 674.
Definition NID_sha224 : Z := 675.

(** Modelled from the spec: the curve identifiers. *)
Definition NID_X9_62_prime256v1 : Z := 415.
Definition NID_secp224r1 : Z := 713.
Definition NID_secp256k1 : Z := 714.
Definition NID_secp384r1 : Z := 715.
Definition NID_secp521r1 : Z := 716.

(** Modelled from the spec: the cipher identifiers. *)
Definition NID_aes_128_ecb : Z := 418.
Definition NID_aes_128_cbc : Z := 419.
Definition NID_aes_192_ecb : Z := 422.
Definition NID_aes_192_cbc : Z := 423.
Definition NID_aes_256_ecb : Z := 426.
Definition NID_aes_256_cbc : Z := 427.
Definition NID_aes_128_ctr : Z := 904.
Definition NID_aes_192_ctr : Z := 905.
Definition NID_aes_256_ctr : Z := 906.

(** Modelled from the spec: the key types. *)
Definition EVP_PKEY_RSA : Z := 6.
Definition EVP_PKEY_EC : Z := 408.
Definition EVP_PKEY_RSA_PSS : Z := 912.

(** Modelled from the spec: the padding modes. *)
Definition RSA_PKCS1_PADDING : Z := 1.
Definition RSA_PKCS1_PSS_PADDING : Z := 6.

(** ** The contexts the verification functions read *)

(** [EVP_MD]: a digest, with its identifier and its output length in
    bytes ([EVP_MD_type], [EVP_MD_size]). *)
Record EVP_MD : Type := mk_md {
  EVP_MD_type : Z;    (* int *)
  EVP_MD_size : Z     (* size_t *)
}.

Record EVP_AEAD : Type := mk_aead {
  EVP_AEAD_key_length : Z    (* size_t, in bytes *)
}.

Record EVP_AEAD_CTX : Type := mk_aead_ctx {
  aead : EVP_AEAD;
  tag_len : Z                (* uint8_t *)
}.

Record EVP_CIPHER_CTX : Type := mk_cipher_ctx {
  EVP_CIPHER_CTX_nid : Z;    (* int *)
  key_len : Z                (* unsigned, in bytes *)
}.

Record CMAC_CTX : Type := mk_cmac_ctx {
  cipher_ctx : EVP_CIPHER_CTX
}.

Record EC_GROUP : Type := mk_group {
  EC_GROUP_get_curve_name : Z   (* int: the NID of the curve *)
}.

Record EC_KEY : Type := mk_ec_key {
  group : EC_GROUP
}.

Definition EC_KEY_get0_group (k : EC_KEY) : EC_GROUP := group k.

(** [EVP_PKEY].  The member [pkey.ec] of its union is read only where
    [type] is [EVP_PKEY_EC]. *)
Record EVP_PKEY : Type := mk_pkey {
  type : Z;             (* int *)
  pkey_ec : EC_KEY;
  EVP_PKEY_size : Z     (* int, in bytes *)
}.

Definition EVP_PKEY_id (k : EVP_PKEY) : Z := type k.

(** Modelled from the spec: what a parameter accessor of an [EVP_PKEY_CTX]
    does when called: it returns 1 and writes its out-parameter, or it
    returns 0 ("a parameter accessor fails") and leaves the diagnostic
    errors it raised on the queue. *)
Inductive accessor (A : Type) : Type :=
| Fetched (a : A)
| Failed (raised : list err).
Arguments Fetched {A} a.
Arguments Failed {A} raised.

Record EVP_PKEY_CTX : Type := mk_pkey_ctx {
  pkey : EVP_PKEY;
  get_signature_md : accessor EVP_MD;
  get_rsa_padding : accessor Z;
  get_rsa_pss_saltlen : accessor Z;
  get_rsa_mgf1_md : accessor EVP_MD
}.

Definition EVP_PKEY_CTX_get0_pkey (p : EVP_PKEY_CTX) : EVP_PKEY := pkey p.

(** [EVP_MD_CTX]: [EVP_MD_CTX_md] is NULL ([None]) when no digest is
    bound. *)
Record EVP_MD_CTX : Type := mk_md_ctx {
  EVP_MD_CTX_md : option EVP_MD;
  pctx : EVP_PKEY_CTX
}.

(** Modelled from the spec: a call of an accessor; [None] is the return
    value 0. *)
Definition call_accessor {A} (a : accessor A) : M (option A) :=
  fun t => match a with
           | Fetched v => Returned (Some v) t
           | Failed raised =>
               Returned None (mk_thread (tls_indicator t) (err_queue t ++ raised))
           end.

Definition EVP_PKEY_CTX_get_signature_md (p : EVP_PKEY_CTX) : M (option EVP_MD) :=
  call_accessor (get_signature_md p).
Definition EVP_PKEY_CTX_get_rsa_padding (p : EVP_PKEY_CTX) : M (option Z) :=
  call_accessor (get_rsa_padding p).
Definition EVP_PKEY_CTX_get_rsa_pss_saltlen (p : EVP_PKEY_CTX) : M (option Z) :=
  call_accessor (get_rsa_pss_saltlen p).
Definition EVP_PKEY_CTX_get_rsa_mgf1_md (p : EVP_PKEY_CTX) : M (option EVP_MD) :=
  call_accessor (get_rsa_mgf1_md p).

(** ** The verification functions (AWSLC_FIPS build) *)

Definition AEAD_GCM_verify_service_indicator (e : alloc) (ctx : EVP_AEAD_CTX)
    : M unit :=
  let key_len := EVP_AEAD_key_length (aead ctx) in
  if (key_len =? 16) || (key_len =? 32)
  then FIPS_service_indicator_update_state e
  else ret tt.

Definition AEAD_CCM_verify_service_indicator (e : alloc) (ctx : EVP_AEAD_CTX)
    : M unit :=
  if (EVP_AEAD_key_length (aead ctx) =? 16) && (tag_len ctx =? 4)
  then FIPS_service_indicator_update_state e
  else ret tt.

Definition AES_CMAC_verify_service_indicator (e : alloc) (ctx : CMAC_CTX)
    : M unit :=
  let key_len := key_len (cipher_ctx ctx) in
  if (key_len =? 16) || (key_len =? 32)
  then FIPS_service_indicator_update_state e
  else ret tt.

(** A [switch] over constant labels: whether [z] is one of them. *)
Definition one_of (labels : list Z) (z : Z) : bool :=
  existsb (Z.eqb z) labels.

Definition is_ec_fips_approved (curve_nid : Z) : Z :=
  if one_of [NID_secp224r1; NID_X9_62_prime256v1; NID_secp384r1; NID_secp521r1]
            curve_nid
  then 1 else 0.

Definition is_md_fips_approved_for_signing (md_type : Z) : Z :=
  if one_of [NID_sha224; NID_sha256; NID_sha384; NID_sha512] md_type
  then 1 else 0.

Definition is_md_fips_approved_for_verifying (md_type : Z) : Z :=
  if one_of [NID_sha1; NID_sha224; NID_sha256; NID_sha384; NID_sha512] md_type
  then 1 else 0.

(** [goto err]: leaves the body of [evp_md_ctx_verify_service_indicator]
    for its last statement. *)
Definition goto_err : M unit := ret tt.

(** The condition guarding the [goto err] of the PSS block, with the
    short-circuit evaluation of [||]: the MGF1 accessor is not called once
    the salt-length accessor failed. *)
Definition pss_parameters_rejected (pctx : EVP_PKEY_CTX) (pctx_md : EVP_MD)
    (md_type : Z) : M bool :=
  r <- EVP_PKEY_CTX_get_rsa_pss_saltlen pctx ;;
  match r with
  | None => ret true
  | Some salt_len =>
      r <- EVP_PKEY_CTX_get_rsa_mgf1_md pctx ;;
      match r with
      | None => ret true
      | Some mgf1_md =>
          ret ((negb (salt_len =? -1)
                && negb (salt_len =? int_of_size_t (EVP_MD_size pctx_md)))
               || negb (EVP_MD_type mgf1_md =? md_type))
      end
  end.

Definition evp_md_ctx_verify_service_indicator (e : alloc) (ctx : EVP_MD_CTX)
    (rsa_1024_ok : Z) (md_ok : Z -> Z) : M unit :=
  match EVP_MD_CTX_md ctx with
  | None =>
      (* Signature schemes without a prehash are never FIPS approved. *)
      goto_err
  | Some md =>
      let pctx := pctx ctx in
      let pkey := EVP_PKEY_CTX_get0_pkey pctx in
      let pkey_type := EVP_PKEY_id pkey in
      let md_type := EVP_MD_type md in       (* EVP_MD_CTX_type (ctx) *)
      if (pkey_type =? EVP_PKEY_RSA) || (pkey_type =? EVP_PKEY_RSA_PSS) then
        r <- EVP_PKEY_CTX_get_signature_md pctx ;;
        match r with
        | None => goto_err
        | Some pctx_md =>
            if negb (EVP_MD_type pctx_md =? md_type) then goto_err else
            r <- EVP_PKEY_CTX_get_rsa_padding pctx ;;
            match r with
            | None => goto_err
            | Some padding =>
                rejected <- (if padding =? RSA_PKCS1_PSS_PADDING
                             then pss_parameters_rejected pctx pctx_md md_type
                             else ret false) ;;
                if rejected : bool then goto_err else
                let pkey_size := size_t_of_int (EVP_PKEY_size pkey) in
                if c_true (md_ok md_type)
                   && ((c_true rsa_1024_ok && (pkey_size =? 128))
                       || (pkey_size =? 256) || (pkey_size =? 384)
                       || (pkey_size =? 512))
                then FIPS_service_indicator_update_state e
                else ret tt
            end
        end
      else if pkey_type =? EVP_PKEY_EC then
        let curve_nid := EC_GROUP_get_curve_name (group (pkey_ec pkey)) in
        if c_true (md_ok md_type) && c_true (is_ec_fips_approved curve_nid)
        then FIPS_service_indicator_update_state e
        else ret tt
      else ret tt
  end ;;
  (* err: ensure that junk errors are not left on the queue. *)
  ERR_clear_error.

Definition EC_KEY_keygen_verify_service_indicator (e : alloc) (eckey : EC_KEY)
    : M unit :=
  if c_true (is_ec_fips_approved (EC_GROUP_get_curve_name (group eckey)))
  then FIPS_service_indicator_update_state e
  else ret tt.

Definition ECDH_verify_service_indicator (e : alloc) (ec_key : EC_KEY)
    : M unit :=
  if c_true (is_ec_fips_approved
               (EC_GROUP_get_curve_name (EC_KEY_get0_group ec_key)))
  then FIPS_service_indicator_update_state e
  else ret tt.

Definition EVP_PKEY_keygen_verify_service_indicator (e : alloc)
    (pkey : EVP_PKEY) : M unit :=
  if (type pkey =? EVP_PKEY_RSA) || (type pkey =? EVP_PKEY_RSA_PSS) then
    let key_size := size_t_of_int (EVP_PKEY_size pkey) in
    if one_of [256; 384; 512] key_size
    then FIPS_service_indicator_update_state e
    else ret tt
  else if type pkey =? EVP_PKEY_EC then
    let curve_nid := EC_GROUP_get_curve_name (group (pkey_ec pkey)) in
    if c_true (is_ec_fips_approved curve_nid)
    then FIPS_service_indicator_update_state e
    else ret tt
  else ret tt.

Definition EVP_Cipher_verify_service_indicator (e : alloc)
    (ctx : EVP_CIPHER_CTX) : M unit :=
  if one_of [NID_aes_128_ecb; NID_aes_192_ecb; NID_aes_256_ecb;
             NID_aes_128_cbc; NID_aes_192_cbc; NID_aes_256_cbc;
             NID_aes_128_ctr; NID_aes_192_ctr; NID_aes_256_ctr]
            (EVP_CIPHER_CTX_nid ctx)
  then FIPS_service_indicator_update_state e
  else ret tt.

Definition EVP_DigestVerify_verify_service_indicator (e : alloc)
    (ctx : EVP_MD_CTX) : M unit :=
  evp_md_ctx_verify_service_indicator e ctx 1 is_md_fips_approved_for_verifying.

Definition EVP_DigestSign_verify_service_indicator (e : alloc)
    (ctx : EVP_MD_CTX) : M unit :=
  evp_md_ctx_verify_service_indicator e ctx 0 is_md_fips_approved_for_signing.

Definition HMAC_verify_service_indicator (e : alloc) (evp_md : EVP_MD)
    : M unit :=
  if one_of [NID_sha1; NID_sha224; NID_sha256; NID_sha384; NID_sha512]
            (EVP_MD_type evp_md)
  then FIPS_service_indicator_update_state e
  else ret tt.

Definition TLSKDF_verify_service_indicator (e : alloc) (dgst : EVP_MD)
    : M unit :=
  if one_of [NID_md5; NID_sha1; NID_md5_sha1; NID_sha256; NID_sha384;
             NID_sha512]
            (EVP_MD_type dgst)
  then FIPS_service_indicator_update_state e
  else ret tt.

(** ** The build without AWSLC_FIPS *)

Module NonFips.

(** The two functions of the [#else] branch; they read and write
    nothing. *)
Definition FIPS_service_indicator_before_call : M Z := ret 0.

Definition FIPS_service_indicator_after_call : M Z := ret 1.

End NonFips.

Definition is_fips_build (awslc_fips : bool) : Z :=
  if awslc_fips then 1 else 0.

(** ** Sequences of calls made by one thread *)

(** The entry points of the subsystem, each with its argument. *)
Inductive call : Type :=
| Before_call
| After_call
| Update_state
| Lock_state
| Unlock_state
| AEAD_GCM_verify (ctx : EVP_AEAD_CTX)
| AEAD_CCM_verify (ctx : EVP_AEAD_CTX)
| AES_CMAC_verify (ctx : CMAC_CTX)
| EC_KEY_keygen_verify (eckey : EC_KEY)
| ECDH_verify (ec_key : EC_KEY)
| EVP_PKEY_keygen_verify (pkey : EVP_PKEY)
| EVP_Cipher_verify (ctx : EVP_CIPHER_CTX)
| EVP_DigestVerify_verify (ctx : EVP_MD_CTX)
| EVP_DigestSign_verify (ctx : EVP_MD_CTX)
| HMAC_verify (evp_md : EVP_MD)
| TLSKDF_verify (dgst : EVP_MD).

Definition no_value (m : M unit) : M (option Z) := m ;; ret None.
Definition value (m : M Z) : M (option Z) := v <- m ;; ret (Some v).

(** Runs one call; the result is the counter snapshot the call returns, if
    it returns one. *)
Definition exec (e : alloc) (c : call) : M (option Z) :=
  match c with
  | Before_call => value (FIPS_service_indicator_before_call e)
  | After_call => value (FIPS_service_indicator_after_call e)
  | Update_state => no_value (FIPS_service_indicator_update_state e)
  | Lock_state => no_value (FIPS_service_indicator_lock_state e)
  | Unlock_state => no_value (FIPS_service_indicator_unlock_state e)
  | AEAD_GCM_verify ctx => no_value (AEAD_GCM_verify_service_indicator e ctx)
  | AEAD_CCM_verify ctx => no_value (AEAD_CCM_verify_service_indicator e ctx)
  | AES_CMAC_verify ctx => no_value (AES_CMAC_verify_service_indicator e ctx)
  | EC_KEY_keygen_verify k => no_value (EC_KEY_keygen_verify_service_indicator e k)
  | ECDH_verify k => no_value (ECDH_verify_service_indicator e k)
  | EVP_PKEY_keygen_verify k =>
      no_value (EVP_PKEY_keygen_verify_service_indicator e k)
  | EVP_Cipher_verify ctx => no_value (EVP_Cipher_verify_service_indicator e ctx)
  | EVP_DigestVerify_verify ctx =>
      no_value (EVP_DigestVerify_verify_service_indicator e ctx)
  | EVP_DigestSign_verify ctx =>
      no_value (EVP_DigestSign_verify_service_indicator e ctx)
  | HMAC_verify md => no_value (HMAC_verify_service_indicator e md)
  | TLSKDF_verify md => no_value (TLSKDF_verify_service_indicator e md)
  end.

(** The snapshots a thread observes, in order, while it makes the calls of
    [cs] one after the other; an abort ends the thread. *)
Fixpoint snapshots (cs : list (alloc * call)) (t : thread) : list Z :=
  match cs with
  | [] => []
  | (e, c) :: cs' =>
      match exec e c t with
      | Aborted => []
      | Returned (Some v) t' => v :: snapshots cs' t'
      | Returned None t' => snapshots cs' t'
      end
  end.

(** The state a thread is in after the calls of [cs], unless one aborted. *)
Fixpoint run (cs : list (alloc * call)) : M unit :=
  match cs with
  | [] => ret tt
  | (e, c) :: cs' => exec e c ;; run cs'
  end.

(** The counter of a thread, as its indicator state holds it; a thread
    that has no state yet has counted nothing. *)
Definition counter_of (t : thread) : Z :=
  match tls_indicator t with
  | Some i => counter i
  | None => 0
  end.

Definition all_ok : alloc := mk_alloc true true.
Definition no_memory : alloc := mk_alloc false true.
Definition no_thread_local : alloc := mk_alloc true false.

(** Some digests and contexts to test with. *)
Definition sha1 : EVP_MD := mk_md NID_sha1 20.
Definition sha256 : EVP_MD := mk_md NID_sha256 32.

Definition no_ec_key : EC_KEY := mk_ec_key (mk_group 0).

Definition rsa_key (bytes : Z) : EVP_PKEY := mk_pkey EVP_PKEY_RSA no_ec_key bytes.

(** An RSA-PSS context: digest [md], modulus of [bytes] bytes, salt length
    [salt_len] and MGF1 digest [mgf1]. *)
Definition rsa_pss_ctx (md : EVP_MD) (bytes salt_len : Z) (mgf1 : EVP_MD)
    : EVP_MD_CTX :=
  mk_md_ctx (Some md)
    (mk_pkey_ctx (rsa_key bytes) (Fetched md) (Fetched RSA_PKCS1_PSS_PADDING)
       (Fetched salt_len) (Fetched mgf1)).

(** An RSA context with PKCS#1 v1.5 padding. *)
Definition rsa_pkcs1_ctx (md : EVP_MD) (bytes : Z) : EVP_MD_CTX :=
  mk_md_ctx (Some md)
    (mk_pkey_ctx (rsa_key bytes) (Fetched md) (Fetched RSA_PKCS1_PADDING)
       (Failed [ERR ERR_LIB_RSA (ERR_R_OTHER 0)])
       (Failed [ERR ERR_LIB_RSA (ERR_R_OTHER 0)])).

(** ** Vocabulary of the properties *)

(** Whether [service_indicator_get] can hand out the state of the thread
    during a call: the state exists already, or both library calls that
    create it succeed. *)
Definition store_available (e : alloc) (t : thread) : bool :=
  match tls_indicator t with
  | Some _ => true
  | None => malloc_ok e && set_thread_local_ok e
  end.

(** The lock depth of a thread.  A thread that has no state yet has locked
    nothing: its depth is the [STATE_UNLOCKED] its state is created with. *)
Definition lock_depth (t : thread) : Z :=
  match tls_indicator t with
  | Some i => lock_state i
  | None => STATE_UNLOCKED
  end.

(** The error [service_indicator_get] raises when it returns NULL. *)
Definition allocation_error (e : alloc) : err :=
  ERR ERR_LIB_CRYPTO
      (if malloc_ok e then ERR_R_INTERNAL_ERROR else ERR_R_MALLOC_FAILURE).

(** The thread after a failed [service_indicator_get]. *)
Definition after_failed_get (e : alloc) (t : thread) : thread :=
  mk_thread (tls_indicator t) (err_queue t ++ [allocation_error e]).

(** The thread whose state is [mk_indicator d c], errors as in [t]. *)
Definition with_state (d c : Z) (t : thread) : thread :=
  mk_thread (Some (mk_indicator d c)) (err_queue t).

(** The unlocked thread whose counter holds the largest 64-bit value. *)
Definition MAX_THREAD : thread :=
  mk_thread (Some (mk_indicator 0 UINT64_MAX)) [].

(** The thread after a call of the update primitive. *)
Definition after_update (e : alloc) (t : thread) : thread :=
  if store_available e t then
    if lock_depth t =? 0
    then with_state (lock_depth t) (u64 (counter_of t + 1)) t
    else t
  else after_failed_get e t.

(** The thread with its error queue emptied. *)
Definition cleared (t : thread) : thread := mk_thread (tls_indicator t) [].

(** ** The composite signature rule, in the words of the spec

    These predicates follow the rule as the spec states it, parameter by
    parameter; [evp_md_ctx_verify_run] below compares them with
    [evp_md_ctx_verify_service_indicator], which is the source. *)

Definition is_rsa_key (k : EVP_PKEY) : bool :=
  (EVP_PKEY_id k =? EVP_PKEY_RSA) || (EVP_PKEY_id k =? EVP_PKEY_RSA_PSS).

Definition failed {A} (a : accessor A) : bool :=
  match a with
  | Fetched _ => false
  | Failed _ => true
  end.

(** PSS: the salt length is the output length of the digest or is -1, and
    the MGF1 digest is the signing digest. *)
Definition pss_parameters_ok (pctx : EVP_PKEY_CTX) (pctx_md : EVP_MD)
    (md_type : Z) : bool :=
  match get_rsa_pss_saltlen pctx, get_rsa_mgf1_md pctx with
  | Fetched salt_len, Fetched mgf1_md =>
      ((salt_len =? -1) || (salt_len =? int_of_size_t (EVP_MD_size pctx_md)))
      && (EVP_MD_type mgf1_md =? md_type)
  | _, _ => false
  end.

(** RSA: a digest is bound, it is the signature digest of the key context,
    the PSS rule holds if the padding is PSS, and the digest is approved. *)
Definition rsa_parameters_ok (ctx : EVP_MD_CTX) (md_ok : Z -> Z) : bool :=
  match EVP_MD_CTX_md ctx, get_signature_md (pctx ctx),
        get_rsa_padding (pctx ctx) with
  | Some md, Fetched pctx_md, Fetched padding =>
      (EVP_MD_type pctx_md =? EVP_MD_type md)
      && (if padding =? RSA_PKCS1_PSS_PADDING
          then pss_parameters_ok (pctx ctx) pctx_md (EVP_MD_type md)
          else true)
      && c_true (md_ok (EVP_MD_type md))
  | _, _, _ => false
  end.

(** The modulus sizes, in bytes: 256, 384 and 512, and 128 where 1024-bit
    keys are allowed. *)
Definition rsa_modulus_ok (rsa_1024_ok : Z) (pkey_size : Z) : bool :=
  (c_true rsa_1024_ok && (pkey_size =? 128)) || one_of [256; 384; 512] pkey_size.

Definition ec_parameters_ok (ctx : EVP_MD_CTX) (md_ok : Z -> Z) : bool :=
  match EVP_MD_CTX_md ctx with
  | Some md =>
      c_true (md_ok (EVP_MD_type md))
      && c_true (is_ec_fips_approved
                   (EC_GROUP_get_curve_name (group (pkey_ec (pkey (pctx ctx))))))
  | None => false
  end.

Definition signature_approved (ctx : EVP_MD_CTX) (rsa_1024_ok : Z)
    (md_ok : Z -> Z) : bool :=
  if is_rsa_key (pkey (pctx ctx)) then
    rsa_parameters_ok ctx md_ok
    && rsa_modulus_ok rsa_1024_ok
         (size_t_of_int (EVP_PKEY_size (pkey (pctx ctx))))
  else if EVP_PKEY_id (pkey (pctx ctx)) =? EVP_PKEY_EC then
    ec_parameters_ok ctx md_ok
  else false.

(** The probe of a context fails: no digest is bound, or the key is an RSA
    key and one of the accessors that its padding mode calls for fails. *)
Definition probe_fails (ctx : EVP_MD_CTX) : bool :=
  match EVP_MD_CTX_md ctx with
  | None => true
  | Some _ =>
      is_rsa_key (pkey (pctx ctx))
      && (failed (get_signature_md (pctx ctx))
          || failed (get_rsa_padding (pctx ctx))
          || match get_rsa_padding (pctx ctx) with
             | Fetched padding =>
                 (padding =? RSA_PKCS1_PSS_PADDING)
                 && (failed (get_rsa_pss_saltlen (pctx ctx))
                     || failed (get_rsa_mgf1_md (pctx ctx)))
             | Failed _ => false
             end)
  end.

(** The context [ctx] with a key of [bytes] bytes. *)
Definition with_modulus (bytes : Z) (ctx : EVP_MD_CTX) : EVP_MD_CTX :=
  let p := pctx ctx in
  mk_md_ctx (EVP_MD_CTX_md ctx)
    (mk_pkey_ctx (mk_pkey (type (pkey p)) (pkey_ec (pkey p)) bytes)
       (get_signature_md p) (get_rsa_padding p) (get_rsa_pss_saltlen p)
       (get_rsa_mgf1_md p)).

(** Modelled from the spec: the way a collaborator uses the counter
    protocol (section 4.3, of which the source has only the two snapshot
    functions): snapshot before the operation, run it, snapshot after it;
    approval occurred if and only if the second snapshot is greater than the
    first. *)
Definition bracketed (before_call after_call : M Z) (operation : M unit)
    : M bool :=
  before <- before_call ;;
  operation ;;
  after <- after_call ;;
  ret (before <? after).

(** What a call of the subsystem does to a thread: if it returns, the
    thread is still well-formed, its counter is the old one or the
    successor of the old one, and a snapshot is the counter, which it does
    not move. *)
Definition step_ok (t : thread) (r : outcome (option Z)) : Prop :=
  match r with
  | Aborted => True
  | Returned v t' =>
      (well_formed t -> well_formed t') /\
      (counter_of t' = counter_of t \/
       counter_of t' = u64 (counter_of t + 1)) /\
      (forall s, v = Some s -> s = counter_of t /\ counter_of t' = counter_of t)
  end.

(** The calls that never reach the update primitive. *)
Definition takes_no_update (c : call) : bool :=
  match c with
  | Before_call | After_call | Lock_state | Unlock_state => true
  | _ => false
  end.

(** ** Vocabulary for sequences of calls *)

(** The rule each verification function applies to its argument, as a
    predicate: whether the call reaches the update primitive.
    [exec_verify_run] below compares it with the source. *)
Definition approves (c : call) : bool :=
  match c with
  | Before_call | After_call | Lock_state | Unlock_state => false
  | Update_state => true
  | AEAD_GCM_verify ctx => one_of [16; 32] (EVP_AEAD_key_length (aead ctx))
  | AEAD_CCM_verify ctx =>
      (EVP_AEAD_key_length (aead ctx) =? 16) && (tag_len ctx =? 4)
  | AES_CMAC_verify ctx => one_of [16; 32] (key_len (cipher_ctx ctx))
  | EC_KEY_keygen_verify k =>
      c_true (is_ec_fips_approved (EC_GROUP_get_curve_name (group k)))
  | ECDH_verify k =>
      c_true (is_ec_fips_approved (EC_GROUP_get_curve_name (group k)))
  | EVP_PKEY_keygen_verify k =>
      if is_rsa_key k
      then one_of [256; 384; 512] (size_t_of_int (EVP_PKEY_size k))
      else (type k =? EVP_PKEY_EC)
           && c_true (is_ec_fips_approved
                        (EC_GROUP_get_curve_name (group (pkey_ec k))))
  | EVP_Cipher_verify ctx =>
      one_of [NID_aes_128_ecb; NID_aes_192_ecb; NID_aes_256_ecb;
              NID_aes_128_cbc; NID_aes_192_cbc; NID_aes_256_cbc;
              NID_aes_128_ctr; NID_aes_192_ctr; NID_aes_256_ctr]
             (EVP_CIPHER_CTX_nid ctx)
  | EVP_DigestVerify_verify ctx =>
      signature_approved ctx 1 is_md_fips_approved_for_verifying
  | EVP_DigestSign_verify ctx =>
      signature_approved ctx 0 is_md_fips_approved_for_signing
  | HMAC_verify md =>
      one_of [NID_sha1; NID_sha224; NID_sha256; NID_sha384; NID_sha512]
             (EVP_MD_type md)
  | TLSKDF_verify md =>
      one_of [NID_md5; NID_sha1; NID_md5_sha1; NID_sha256; NID_sha384;
              NID_sha512] (EVP_MD_type md)
  end.

(** The two calls that end with [ERR_clear_error]. *)
Definition clears_errors (c : call) : bool :=
  match c with
  | EVP_DigestVerify_verify _ | EVP_DigestSign_verify _ => true
  | _ => false
  end.

Definition is_lock_or_unlock (c : call) : bool :=
  match c with
  | Lock_state | Unlock_state => true
  | _ => false
  end.

(** The lock depth after a call made at depth [d] with the state in hand;
    [None] where the call aborts. *)
Definition depth_step (d : Z) (c : call) : option Z :=
  match c with
  | Lock_state => if d =? UINT64_MAX then None else Some (d + 1)
  | Unlock_state => if d =? 0 then None else Some (d - 1)
  | _ => Some d
  end.

Fixpoint depth_after (d : Z) (cs : list (alloc * call)) : option Z :=
  match cs with
  | [] => Some d
  | (_, c) :: cs' =>
      match depth_step d c with
      | None => None
      | Some d' => depth_after d' cs'
      end
  end.

(** Whether the depth is above 0 before every call of [cs], starting at
    depth [d]. *)
Fixpoint locked_throughout (d : Z) (cs : list (alloc * call)) : bool :=
  match cs with
  | [] => true
  | (_, c) :: cs' =>
      (0 <? d)
      && match depth_step d c with
         | None => true
         | Some d' => locked_throughout d' cs'
         end
  end.

(** The state of the thread can be had at every call of [cs]. *)
Definition store_available_for (cs : list (alloc * call)) (t : thread) : bool :=
  forallb (fun ec => store_available (fst ec) t) cs.

(** A call run as an operation that returns nothing. *)
Definition as_operation (e : alloc) (c : call) : M unit :=
  exec e c ;; ret tt.

(** Whether a call reaches [service_indicator_get]: the snapshots, lock
    and unlock always do, a verification function when its rule holds. *)
Definition reaches_store (c : call) : bool :=
  takes_no_update c || approves c.

(** The context [ctx] with other results for the four accessors of its
    key context. *)
Definition with_accessors (sig : accessor EVP_MD) (pad salt : accessor Z)
    (mgf : accessor EVP_MD) (ctx : EVP_MD_CTX) : EVP_MD_CTX :=
  mk_md_ctx (EVP_MD_CTX_md ctx)
    (mk_pkey_ctx (pkey (pctx ctx)) sig pad salt mgf).

(** The values of a C [int]. *)
Definition in_int (z : Z) : Prop := - 2 ^ 31 <= z < 2 ^ 31.

(** ** The 384-bit nonzero test of s2n-bignum

    [third_party/s2n-bignum/x86_att/p384/bignum_nonzero_6.S]: the few
    x86-64 instructions the routine uses, over a machine of 64-bit
    registers, a byte-addressed memory and the status flags, and the
    routine as the list of its instructions. *)

Module X86.

Inductive reg : Type := RAX | RCX | RDX | RSI | RDI | RSP.

Definition reg_eqb (r1 r2 : reg) : bool :=
  match r1, r2 with
  | RAX, RAX | RCX, RCX | RDX, RDX | RSI, RSI | RDI, RDI | RSP, RSP => true
  | _, _ => false
  end.

(** The status flags a logical instruction defines (it leaves AF
    undefined). *)
Record flags : Type := mk_flags {
  ZF : bool;
  SF : bool;
  PF : bool;
  CF : bool;
  OF : bool
}.

Record machine : Type := mk_machine {
  regs : reg -> Z;     (* the 64-bit value of each register *)
  mem : Z -> Z;        (* the byte at each 64-bit address *)
  eflags : flags
}.

(** A register, or the memory at [disp(base)]. *)
Inductive operand : Type :=
| Reg (r : reg)
| Mem (disp : Z) (base : reg).

Inductive instr : Type :=
| Movq (src : operand) (dst : reg)     (* movq src, dst *)
| Orq (src : operand) (dst : reg)      (* orq src, dst *)
| Movl (imm : Z) (dst : reg)           (* movl $imm, the low half of dst *)
| Cmovnzq (src dst : reg)              (* cmovnzq src, dst *)
| Pushq (src : reg)
| Popq (dst : reg)
| Ret.

(** The byte at an address; addresses wrap around at 2^64. *)
Definition byte_at (m : Z -> Z) (a : Z) : Z := m (u64 a) mod 256.

(** The little-endian number held by the [n] bytes from address [a] on. *)
Fixpoint load_bytes (n : nat) (m : Z -> Z) (a : Z) : Z :=
  match n with
  | O => 0
  | S k => byte_at m a + 256 * load_bytes k m (a + 1)
  end.

Definition load64 (m : Z -> Z) (a : Z) : Z := load_bytes 8 m a.

(** Memory after the 8 bytes of [v] are written from address [a] on. *)
Definition store64 (m : Z -> Z) (a v : Z) : Z -> Z :=
  fun b =>
    let offset := u64 (b - a) in
    if offset <? 8 then (v / 2 ^ (8 * offset)) mod 256 else m b.

Definition set_reg (r : reg) (v : Z) (s : machine) : machine :=
  mk_machine (fun r' => if reg_eqb r' r then v else regs s r')
             (mem s) (eflags s).

Definition set_mem (m : Z -> Z) (s : machine) : machine :=
  mk_machine (regs s) m (eflags s).

Definition set_flags (f : flags) (s : machine) : machine :=
  mk_machine (regs s) (mem s) f.

(** PF: the low byte of the result has an even number of bits set. *)
Definition parity_even (r : Z) : bool :=
  negb (fold_left xorb (map (Z.testbit r) [0; 1; 2; 3; 4; 5; 6; 7]) false).

(** The flags after a logical instruction with 64-bit result [r]. *)
Definition logic_flags (r : Z) : flags :=
  mk_flags (r =? 0) (Z.testbit r 63) (parity_even r) false false.

Definition read_operand (s : machine) (o : operand) : Z :=
  match o with
  | Reg r => regs s r
  | Mem disp base => load64 (mem s) (u64 (regs s base + disp))
  end.

Definition step (i : instr) (s : machine) : machine :=
  match i with
  | Movq src dst => set_reg dst (read_operand s src) s
  | Orq src dst =>
      let r := Z.lor (regs s dst) (read_operand s src) in
      set_flags (logic_flags r) (set_reg dst r s)
  | Movl imm dst => set_reg dst (imm mod 2 ^ 32) s
  | Cmovnzq src dst =>
      if ZF (eflags s) then s else set_reg dst (regs s src) s
  | Pushq src =>
      let sp := u64 (regs s RSP - 8) in
      set_mem (store64 (mem s) sp (regs s src)) (set_reg RSP sp s)
  | Popq dst =>
      let v := load64 (mem s) (regs s RSP) in
      set_reg dst v (set_reg RSP (u64 (regs s RSP + 8)) s)
  | Ret =>
      (* the return address is popped and control goes back to the caller *)
      set_reg RSP (u64 (regs s RSP + 8)) s
  end.

Definition run (p : list instr) (s : machine) : machine :=
  fold_left (fun s i => step i s) p s.

(** The names the routine gives its registers. *)
Definition x : reg := RDI.
Definition a : reg := RAX.
Definition d : reg := RDX.

(** The routine; [windows_abi] is the WINDOWS_ABI of the source. *)
Definition bignum_nonzero_6 (windows_abi : bool) : list instr :=
  (if windows_abi
   then [Pushq RDI; Pushq RSI; Movq (Reg RCX) RDI]
   else [])
  ++ [Movq (Mem 0 x) a;
      Movq (Mem 8 x) d;
      Orq (Mem 16 x) a;
      Orq (Mem 24 x) d;
      Orq (Mem 32 x) a;
      Orq (Mem 40 x) d;
      Orq (Reg d) a;
      Movl 1 d;
      Cmovnzq d a]
  ++ (if windows_abi then [Popq RSI; Popq RDI] else [])
  ++ [Ret].

(** The 384-bit number [x] points to: six 64-bit words, least significant
    first, each little-endian. *)
Definition bignum_6 (m : Z -> Z) (p : Z) : Z := load_bytes 48 m p.

(** A memory holding the bytes [bs] from address [p] on and zeros
    elsewhere. *)
Definition memory_of (p : Z) (bs : list Z) : Z -> Z :=
  fun b => nth (Z.to_nat (u64 (b - p))) bs 0.

Definition machine_of (rdi rcx rsp : Z) (m : Z -> Z) : machine :=
  mk_machine (fun r => match r with
                       | RDI => rdi
                       | RCX => rcx
                       | RSP => rsp
                       | _ => 0
                       end)
             m (mk_flags false false false false false).

(** No byte of the [n] bytes from [p] on is one of the [k] bytes from [q]
    on. *)
Definition disjoint (p n q k : Z) : Prop :=
  forall i j, 0 <= i < n -> 0 <= j < k -> u64 (p + i) <> u64 (q + j).

End X86.

(** The number of calls of [cs] whose rule holds and which are made at
    depth 0, the depth being [d] before the first call. *)
Fixpoint approved_unlocked (d : Z) (cs : list (alloc * call)) : Z :=
  match cs with
  | [] => 0
  | (_, c) :: cs' =>
      (if approves c && (d =? 0) then 1 else 0)
      + match depth_step d c with
        | None => 0
        | Some d' => approved_unlocked d' cs'
        end
  end.

(** ** What the primitives compute *)

Lemma u64_small z : 0 <= z <= UINT64_MAX -> u64 z = z.
Proof.
  unfold u64, UINT64_MAX. intros Hz. apply Z.mod_small. lia.
Qed.

Lemma u64_range z : in_u64 (u64 z).
Proof.
  unfold in_u64, u64, UINT64_MAX.
  pose proof (Z.mod_pos_bound z (2 ^ 64) ltac:(lia)). lia.
Qed.

Lemma service_indicator_get_run e t :
  service_indicator_get e t =
  if store_available e t
  then Returned (Some (mk_indicator (lock_depth t) (counter_of t)))
                (with_state (lock_depth t) (counter_of t) t)
  else Returned None (after_failed_get e t).
Proof.
  unfold service_indicator_get, store_available, lock_depth, counter_of,
    after_failed_get, allocation_error, with_state, bind,
    CRYPTO_get_thread_local, CRYPTO_set_thread_local.
  destruct t as [[[d c]|] q]; simpl; [reflexivity|].
  destruct (malloc_ok e), (set_thread_local_ok e); reflexivity.
Qed.

(** With a state, [with_state] changes nothing. *)
Lemma with_state_same t :
  tls_indicator t <> None -> with_state (lock_depth t) (counter_of t) t = t.
Proof.
  destruct t as [[[d c]|] q]; simpl; [reflexivity | congruence].
Qed.

Lemma unavailable_no_state e t :
  store_available e t = false -> tls_indicator t = None.
Proof.
  unfold store_available. destruct (tls_indicator t); congruence.
Qed.

Lemma locked_has_state t : lock_depth t <> 0 -> tls_indicator t <> None.
Proof.
  unfold lock_depth, STATE_UNLOCKED. destruct (tls_indicator t); congruence.
Qed.

Lemma update_state_run e t :
  FIPS_service_indicator_update_state e t =
  Returned tt
    (if store_available e t then
       if lock_depth t =? 0
       then with_state (lock_depth t) (u64 (counter_of t + 1)) t
       else t
     else after_failed_get e t).
Proof.
  unfold FIPS_service_indicator_update_state, bind.
  rewrite service_indicator_get_run.
  destruct (store_available e t) eqn:Ha; [|reflexivity].
  cbn [lock_state counter]. unfold STATE_UNLOCKED.
  destruct (lock_depth t =? 0) eqn:Hd; [reflexivity|].
  apply Z.eqb_neq in Hd. unfold ret.
  now rewrite (with_state_same t (locked_has_state t Hd)).
Qed.

Lemma lock_state_run e t :
  FIPS_service_indicator_lock_state e t =
  if store_available e t then
    if u64 (lock_depth t + 1) <? lock_depth t
    then Aborted
    else Returned tt (with_state (u64 (lock_depth t + 1)) (counter_of t) t)
  else Returned tt (after_failed_get e t).
Proof.
  unfold FIPS_service_indicator_lock_state, bind.
  rewrite service_indicator_get_run.
  destruct (store_available e t); [|reflexivity].
  cbn [lock_state counter].
  destruct (u64 (lock_depth t + 1) <? lock_depth t); reflexivity.
Qed.

Lemma unlock_state_run e t :
  FIPS_service_indicator_unlock_state e t =
  if store_available e t then
    if lock_depth t =? 0
    then Aborted
    else Returned tt (with_state (u64 (lock_depth t - 1)) (counter_of t) t)
  else Returned tt (after_failed_get e t).
Proof.
  unfold FIPS_service_indicator_unlock_state, bind.
  rewrite service_indicator_get_run.
  destruct (store_available e t); [|reflexivity].
  cbn [lock_state counter].
  destruct (lock_depth t =? 0); reflexivity.
Qed.

Lemma get_counter_run e t :
  service_indicator_get_counter e t =
  Returned (counter_of t)
    (if store_available e t
     then with_state (lock_depth t) (counter_of t) t
     else after_failed_get e t).
Proof.
  unfold service_indicator_get_counter, bind.
  rewrite service_indicator_get_run.
  destruct (store_available e t) eqn:Ha; [reflexivity|].
  unfold ret, counter_of. now rewrite (unavailable_no_state e t Ha).
Qed.

Lemma well_formed_bounds t :
  well_formed t -> in_u64 (lock_depth t) /\ in_u64 (counter_of t).
Proof.
  unfold well_formed, lock_depth, counter_of, in_u64, STATE_UNLOCKED, UINT64_MAX.
  destruct (tls_indicator t); [tauto | lia].
Qed.

(** The increment of a [uint64_t]: plus one, and zero after the largest
    value. *)
Lemma u64_succ z :
  in_u64 z -> u64 (z + 1) = if z =? UINT64_MAX then 0 else z + 1.
Proof.
  unfold in_u64. intros Hz.
  destruct (z =? UINT64_MAX) eqn:E.
  - apply Z.eqb_eq in E. subst z. reflexivity.
  - apply Z.eqb_neq in E. apply u64_small. lia.
Qed.

Lemma u64_pred z : in_u64 z -> z <> 0 -> u64 (z - 1) = z - 1.
Proof.
  unfold in_u64. intros Hz Hnz. apply u64_small. lia.
Qed.

(** The overflow test of [FIPS_service_indicator_lock_state] fires at the
    largest depth only. *)
Lemma lock_overflow_test z :
  in_u64 z -> (u64 (z + 1) <? z) = (z =? UINT64_MAX).
Proof.
  intros Hz. rewrite (u64_succ z Hz).
  destruct (z =? UINT64_MAX) eqn:E.
  - apply Z.eqb_eq in E. subst z. reflexivity.
  - apply Z.ltb_ge. lia.
Qed.

(** ** The update primitive *)

(** C1, as the code has it: a call of the update primitive never aborts.
    With the store available and the thread unlocked the counter goes up by
    exactly one, except that the largest 64-bit value is followed by 0, and
    nothing else changes.  With the store available and the thread locked
    nothing at all changes.  With no store to be had the indicator state is
    untouched, and the error that [service_indicator_get] raised stays on
    the error queue. *)
Theorem update_state_effect (e : alloc) (t : thread) :
  well_formed t ->
  FIPS_service_indicator_update_state e t =
  Returned tt
    (if store_available e t then
       if lock_depth t =? 0
       then with_state 0
              (if counter_of t =? UINT64_MAX then 0 else counter_of t + 1) t
       else t
     else after_failed_get e t).
Proof.
  intros Hwf. destruct (well_formed_bounds t Hwf) as [_ Hc].
  rewrite update_state_run.
  destruct (store_available e t); [|reflexivity].
  destruct (lock_depth t =? 0) eqn:Hd; [|reflexivity].
  apply Z.eqb_eq in Hd. now rewrite Hd, (u64_succ _ Hc).
Qed.

Lemma update_state_effect_witness :
  well_formed (mk_thread (Some (mk_indicator 0 41)) []) /\
  FIPS_service_indicator_update_state all_ok
    (mk_thread (Some (mk_indicator 0 41)) []) =
  Returned tt (mk_thread (Some (mk_indicator 0 42)) []).
Proof.
  split.
  - vm_compute. intuition discriminate.
  - apply (update_state_effect all_ok (mk_thread (Some (mk_indicator 0 41)) [])).
    vm_compute. intuition discriminate.
Defined.

(** C1 as stated fails twice.  Without a store the call is not a no-op: it
    leaves an allocation error on the error queue of the caller.  With the
    store available and the thread unlocked the counter does not always go
    up by one: from 2^64 - 1 it goes to 0. *)
Lemma update_state_counterexample :
  (store_available no_memory fresh_thread = false /\
   FIPS_service_indicator_update_state no_memory fresh_thread =
     Returned tt (mk_thread None [ERR ERR_LIB_CRYPTO ERR_R_MALLOC_FAILURE]) /\
   mk_thread None [ERR ERR_LIB_CRYPTO ERR_R_MALLOC_FAILURE] <> fresh_thread) /\
  (store_available all_ok MAX_THREAD = true /\
   lock_depth MAX_THREAD = 0 /\
   counter_of MAX_THREAD = UINT64_MAX /\
   FIPS_service_indicator_update_state all_ok MAX_THREAD =
     Returned tt (mk_thread (Some (mk_indicator 0 0)) []) /\
   counter_of (mk_thread (Some (mk_indicator 0 0)) []) <>
     counter_of MAX_THREAD + 1).
Proof.
  repeat split; try reflexivity; vm_compute; discriminate.
Qed.

(** ** Overflow *)

(** C2, as the code has it: of the two 64-bit fields only the lock depth is
    guarded.  With the store available, locking at depth 2^64 - 1 aborts
    the process and below it the depth goes up by one, so the depth never
    wraps; the update primitive never aborts and has no overflow check, so
    the approval counter goes from 2^64 - 1 to 0. *)
Theorem overflow_effect (e : alloc) (t : thread) :
  well_formed t ->
  store_available e t = true ->
  FIPS_service_indicator_lock_state e t =
    (if lock_depth t =? UINT64_MAX
     then Aborted
     else Returned tt (with_state (lock_depth t + 1) (counter_of t) t)) /\
  FIPS_service_indicator_update_state e t =
    Returned tt
      (if lock_depth t =? 0
       then with_state 0
              (if counter_of t =? UINT64_MAX then 0 else counter_of t + 1) t
       else t).
Proof.
  intros Hwf Ha. destruct (well_formed_bounds t Hwf) as [Hd Hc].
  rewrite lock_state_run, update_state_run, Ha. split.
  - rewrite (lock_overflow_test _ Hd), (u64_succ _ Hd).
    destruct (lock_depth t =? UINT64_MAX); reflexivity.
  - destruct (lock_depth t =? 0) eqn:E; [|reflexivity].
    apply Z.eqb_eq in E. now rewrite E, (u64_succ _ Hc).
Qed.

Lemma overflow_effect_witness :
  well_formed (mk_thread (Some (mk_indicator UINT64_MAX 7)) []) /\
  store_available all_ok (mk_thread (Some (mk_indicator UINT64_MAX 7)) []) = true /\
  FIPS_service_indicator_lock_state all_ok
    (mk_thread (Some (mk_indicator UINT64_MAX 7)) []) = Aborted /\
  FIPS_service_indicator_update_state all_ok
    (mk_thread (Some (mk_indicator UINT64_MAX 7)) []) =
  Returned tt (mk_thread (Some (mk_indicator UINT64_MAX 7)) []).
Proof.
  split; [vm_compute; intuition discriminate|].
  split; [reflexivity|].
  apply (overflow_effect all_ok (mk_thread (Some (mk_indicator UINT64_MAX 7)) [])).
  - vm_compute. intuition discriminate.
  - reflexivity.
Defined.

(** C2 as stated fails: the increment that overflows the approval counter
    does not abort the process; the call returns and the counter is 0. *)
Lemma counter_overflow_counterexample :
  well_formed MAX_THREAD /\
  counter_of MAX_THREAD + 1 > UINT64_MAX /\
  FIPS_service_indicator_update_state all_ok MAX_THREAD <> Aborted /\
  FIPS_service_indicator_update_state all_ok MAX_THREAD =
    Returned tt (mk_thread (Some (mk_indicator 0 0)) []).
Proof.
  repeat split; try reflexivity; vm_compute; discriminate.
Qed.

(** ** Unlocking *)

(** C3, as the code has it: with the state of the thread to be had (the
    one the thread already has or the one the call creates), unlocking at
    depth 0 aborts the process and unlocking at a depth above 0 lowers the
    depth by exactly one, nothing else changing.  With no state to be had
    the call returns without aborting, whatever the depth: the indicator
    state is untouched and the allocation error stays on the error
    queue. *)
Theorem unlock_state_effect (e : alloc) (t : thread) :
  well_formed t ->
  FIPS_service_indicator_unlock_state e t =
  if store_available e t then
    if lock_depth t =? 0
    then Aborted
    else Returned tt (with_state (lock_depth t - 1) (counter_of t) t)
  else Returned tt (after_failed_get e t).
Proof.
  intros Hwf. destruct (well_formed_bounds t Hwf) as [Hd _].
  rewrite unlock_state_run.
  destruct (store_available e t); [|reflexivity].
  destruct (lock_depth t =? 0) eqn:E; [reflexivity|].
  apply Z.eqb_neq in E. now rewrite (u64_pred _ Hd E).
Qed.

Lemma unlock_state_effect_witness :
  well_formed (mk_thread (Some (mk_indicator 2 5)) []) /\
  FIPS_service_indicator_unlock_state all_ok
    (mk_thread (Some (mk_indicator 2 5)) []) =
  Returned tt (mk_thread (Some (mk_indicator 1 5)) []).
Proof.
  split; [vm_compute; intuition discriminate|].
  apply (unlock_state_effect all_ok (mk_thread (Some (mk_indicator 2 5)) [])).
  vm_compute. intuition discriminate.
Defined.

(** C3 as stated fails: a thread at depth 0 whose state cannot be
    allocated calls unlock, and the call returns; the process is not
    aborted. *)
Lemma unlock_state_counterexample :
  well_formed fresh_thread /\
  lock_depth fresh_thread = 0 /\
  FIPS_service_indicator_unlock_state no_memory fresh_thread =
    Returned tt (mk_thread None [ERR ERR_LIB_CRYPTO ERR_R_MALLOC_FAILURE]) /\
  FIPS_service_indicator_unlock_state no_memory fresh_thread <> Aborted.
Proof.
  split; [exact I|]. split; [reflexivity|]. split; [reflexivity|].
  discriminate.
Qed.

(** At depth 0 the process aborts, also when the call itself creates the
    state. *)
Example unlock_at_depth_0 :
  FIPS_service_indicator_unlock_state all_ok
    (mk_thread (Some (mk_indicator 0 5)) []) = Aborted /\
  FIPS_service_indicator_unlock_state all_ok fresh_thread = Aborted.
Proof. split; reflexivity. Qed.

(** ** Locking and unlocking without a store *)

(** C10, as the code has it: when [service_indicator_get] cannot hand out
    the state, lock and unlock return without aborting and leave the
    thread without indicator state, as it was; in particular unlock at
    depth 0 does not abort.  The thread is not unchanged, though: the error
    [service_indicator_get] raised is now the last entry of its error
    queue. *)
Theorem lock_unlock_without_store (e : alloc) (t : thread) :
  store_available e t = false ->
  FIPS_service_indicator_lock_state e t = Returned tt (after_failed_get e t) /\
  FIPS_service_indicator_unlock_state e t = Returned tt (after_failed_get e t) /\
  tls_indicator (after_failed_get e t) = tls_indicator t /\
  tls_indicator t = None /\
  lock_depth t = 0 /\
  err_queue (after_failed_get e t) = err_queue t ++ [allocation_error e].
Proof.
  intros Ha. rewrite lock_state_run, unlock_state_run, Ha.
  pose proof (unavailable_no_state e t Ha) as Hn.
  unfold lock_depth, after_failed_get. cbn [tls_indicator err_queue].
  rewrite Hn. repeat split; reflexivity.
Qed.

Lemma lock_unlock_without_store_witness :
  store_available no_thread_local fresh_thread = false /\
  FIPS_service_indicator_unlock_state no_thread_local fresh_thread =
    Returned tt (mk_thread None [ERR ERR_LIB_CRYPTO ERR_R_INTERNAL_ERROR]).
Proof.
  split; [reflexivity|].
  apply (lock_unlock_without_store no_thread_local fresh_thread).
  reflexivity.
Defined.

(** C10 as stated fails: the calls do change state, the error queue. *)
Lemma lock_unlock_without_store_counterexample :
  store_available no_memory fresh_thread = false /\
  FIPS_service_indicator_lock_state no_memory fresh_thread =
    Returned tt (mk_thread None [ERR ERR_LIB_CRYPTO ERR_R_MALLOC_FAILURE]) /\
  FIPS_service_indicator_unlock_state no_memory fresh_thread =
    Returned tt (mk_thread None [ERR ERR_LIB_CRYPTO ERR_R_MALLOC_FAILURE]) /\
  err_queue (mk_thread None [ERR ERR_LIB_CRYPTO ERR_R_MALLOC_FAILURE]) <>
    err_queue fresh_thread.
Proof.
  repeat split; try reflexivity; vm_compute; discriminate.
Qed.

(** ** The composite signature rule and the source *)

Lemma update_state_after e t :
  FIPS_service_indicator_update_state e t = Returned tt (after_update e t).
Proof. exact (update_state_run e t). Qed.

(** Splits the test of the digest and of the modulus size into its cases. *)
Ltac size_cases md_ok md rsa_1024_ok k :=
  destruct (c_true (md_ok (EVP_MD_type md))), (c_true rsa_1024_ok),
    (size_t_of_int (EVP_PKEY_size k) =? 128),
    (size_t_of_int (EVP_PKEY_size k) =? 256),
    (size_t_of_int (EVP_PKEY_size k) =? 384),
    (size_t_of_int (EVP_PKEY_size k) =? 512);
  cbn [andb orb]; rewrite ?update_state_after; reflexivity.

(** Refinement: the source approves exactly the contexts the rule
    approves, and always returns with the error queue empty. *)
Lemma evp_md_ctx_verify_run e ctx rsa_1024_ok md_ok t :
  evp_md_ctx_verify_service_indicator e ctx rsa_1024_ok md_ok t =
  Returned tt
    (cleared (if signature_approved ctx rsa_1024_ok md_ok
              then after_update e t else t)).
Proof.
  unfold evp_md_ctx_verify_service_indicator, signature_approved,
    rsa_parameters_ok, ec_parameters_ok, pss_parameters_ok, rsa_modulus_ok,
    pss_parameters_rejected, is_rsa_key, goto_err, one_of, existsb,
    EVP_PKEY_CTX_get_signature_md, EVP_PKEY_CTX_get_rsa_padding,
    EVP_PKEY_CTX_get_rsa_pss_saltlen, EVP_PKEY_CTX_get_rsa_mgf1_md,
    EVP_PKEY_CTX_get0_pkey, call_accessor, ERR_clear_error, bind, ret.
  destruct ctx as [md [k sig pad salt mgf]]. cbn [EVP_MD_CTX_md pctx pkey
    get_signature_md get_rsa_padding get_rsa_pss_saltlen get_rsa_mgf1_md].
  destruct ((EVP_PKEY_id k =? EVP_PKEY_RSA) || (EVP_PKEY_id k =? EVP_PKEY_RSA_PSS)).
  - destruct md as [md|]; [|reflexivity].
    destruct sig as [pctx_md|?]; [|reflexivity].
    destruct (EVP_MD_type pctx_md =? EVP_MD_type md); [|destruct pad; reflexivity].
    destruct pad as [padding|?]; [|reflexivity].
    cbn [negb andb].
    destruct (padding =? RSA_PKCS1_PSS_PADDING).
    + destruct salt as [salt_len|?]; [|reflexivity].
      destruct mgf as [mgf1_md|?]; [|reflexivity].
      destruct (salt_len =? -1), (salt_len =? int_of_size_t (EVP_MD_size pctx_md)),
        (EVP_MD_type mgf1_md =? EVP_MD_type md); cbn [negb andb orb];
        try reflexivity; size_cases md_ok md rsa_1024_ok k.
    + size_cases md_ok md rsa_1024_ok k.
  - destruct (EVP_PKEY_id k =? EVP_PKEY_EC); destruct md as [md|];
      try reflexivity.
    destruct (c_true (md_ok (EVP_MD_type md))),
      (c_true (is_ec_fips_approved
                 (EC_GROUP_get_curve_name (group (pkey_ec k)))));
      cbn [andb]; rewrite ?update_state_after; reflexivity.
Qed.

Lemma int_of_size_t_small z : 0 <= z < 2 ^ 31 -> int_of_size_t z = z.
Proof.
  intros Hz. unfold int_of_size_t. rewrite Z.mod_small; lia.
Qed.

Lemma u64_succ_differs z : u64 (z + 1) <> z.
Proof.
  intros H. pose proof (u64_range (z + 1)) as Hb. rewrite H in Hb.
  rewrite (u64_succ z Hb) in H. unfold in_u64, UINT64_MAX in *.
  destruct (z =? 2 ^ 64 - 1) eqn:E; [apply Z.eqb_eq in E|]; lia.
Qed.

(** The counter after the update primitive: as before, or one more
    (modulo 2^64) when the store is available and the thread unlocked. *)
Lemma counter_after_update e t :
  counter_of (after_update e t) =
  if store_available e t && (lock_depth t =? 0)
  then u64 (counter_of t + 1)
  else counter_of t.
Proof.
  unfold after_update.
  destruct (store_available e t) eqn:Ha; cbn [andb].
  - destruct (lock_depth t =? 0); reflexivity.
  - unfold counter_of, after_failed_get. reflexivity.
Qed.

Lemma counter_of_cleared t : counter_of (cleared t) = counter_of t.
Proof. reflexivity. Qed.

(** ** AEAD-CCM *)

(** C9: the CCM function calls the update primitive if and only if the key
    has 16 bytes and the tag 4; for every other pair the thread is left as
    it is.  In a thread whose store is available and which is unlocked the
    counter therefore moves (by one, modulo 2^64) exactly for that pair. *)
Theorem aead_ccm_rule (e : alloc) (ctx : EVP_AEAD_CTX) (t : thread) :
  exists t',
    AEAD_CCM_verify_service_indicator e ctx t = Returned tt t' /\
    (EVP_AEAD_key_length (aead ctx) = 16 /\ tag_len ctx = 4 ->
       FIPS_service_indicator_update_state e t = Returned tt t') /\
    (~ (EVP_AEAD_key_length (aead ctx) = 16 /\ tag_len ctx = 4) -> t' = t) /\
    (store_available e t = true -> lock_depth t = 0 ->
       (counter_of t' <> counter_of t <->
        EVP_AEAD_key_length (aead ctx) = 16 /\ tag_len ctx = 4) /\
       (counter_of t' <> counter_of t ->
        counter_of t' = u64 (counter_of t + 1))).
Proof.
  unfold AEAD_CCM_verify_service_indicator.
  destruct (EVP_AEAD_key_length (aead ctx) =? 16) eqn:Hk;
    destruct (tag_len ctx =? 4) eqn:Ht; cbn [andb];
    rewrite ?Z.eqb_eq, ?Z.eqb_neq in *.
  - exists (after_update e t). rewrite update_state_after.
    split; [reflexivity|]. split; [reflexivity|]. split; [tauto|].
    intros Ha Hd. rewrite counter_after_update, Ha, Hd. cbn [andb Z.eqb].
    split; [split; [tauto|] | reflexivity].
    intros _. apply u64_succ_differs.
  - exists t. unfold ret. repeat split; try tauto; intuition congruence.
  - exists t. unfold ret. repeat split; try tauto; intuition congruence.
  - exists t. unfold ret. repeat split; try tauto; intuition congruence.
Qed.

Lemma aead_ccm_rule_witness :
  AEAD_CCM_verify_service_indicator all_ok (mk_aead_ctx (mk_aead 16) 8)
    (mk_thread (Some (mk_indicator 0 3)) []) =
  Returned tt (mk_thread (Some (mk_indicator 0 3)) []).
Proof.
  destruct (aead_ccm_rule all_ok (mk_aead_ctx (mk_aead 16) 8)
              (mk_thread (Some (mk_indicator 0 3)) []))
    as [t' [Hrun [_ [Hkeep _]]]].
  rewrite Hrun. f_equal. apply Hkeep.
  intros [_ Htag]. discriminate Htag.
Defined.

(** The scenario of the spec: key length 16 with tag length 4 is counted,
    key length 16 with tag length 8 is not. *)
Example aead_ccm_scenario :
  AEAD_CCM_verify_service_indicator all_ok (mk_aead_ctx (mk_aead 16) 4)
    fresh_thread = Returned tt (mk_thread (Some (mk_indicator 0 1)) []) /\
  AEAD_CCM_verify_service_indicator all_ok (mk_aead_ctx (mk_aead 16) 8)
    fresh_thread = Returned tt fresh_thread /\
  AEAD_CCM_verify_service_indicator all_ok (mk_aead_ctx (mk_aead 32) 4)
    fresh_thread = Returned tt fresh_thread.
Proof. repeat split. Qed.

(** ** The composite signature predicate *)

Lemma not_approved_cleared e ctx rsa_1024_ok md_ok t :
  signature_approved ctx rsa_1024_ok md_ok = false ->
  evp_md_ctx_verify_service_indicator e ctx rsa_1024_ok md_ok t =
  Returned tt (cleared t).
Proof.
  intros H. now rewrite evp_md_ctx_verify_run, H.
Qed.

Lemma counter_moved_approved e ctx rsa_1024_ok md_ok t :
  counter_of (cleared (if signature_approved ctx rsa_1024_ok md_ok
                       then after_update e t else t)) <> counter_of t ->
  signature_approved ctx rsa_1024_ok md_ok = true.
Proof.
  destruct (signature_approved ctx rsa_1024_ok md_ok); [reflexivity|].
  rewrite counter_of_cleared. congruence.
Qed.

(** C6: take a context whose key is an RSA or RSA-PSS key and whose padding
    is PSS, on the signing or on the verifying path.  The call returns; if
    it moved the counter, then the salt length is -1 (left unspecified) or
    the output length of the digest bound to the key context (as an [int]),
    the MGF1 digest is the digest of the context, and so is the digest bound
    to the key context.  If the salt length is neither, or the MGF1 digest
    is another one, the call leaves the indicator state as it is. *)
Theorem pss_rule (e : alloc) (ctx : EVP_MD_CTX) (rsa_1024_ok : Z)
    (md_ok : Z -> Z) (t : thread) :
  is_rsa_key (pkey (pctx ctx)) = true ->
  get_rsa_padding (pctx ctx) = Fetched RSA_PKCS1_PSS_PADDING ->
  exists t',
    evp_md_ctx_verify_service_indicator e ctx rsa_1024_ok md_ok t =
      Returned tt t' /\
    (counter_of t' <> counter_of t ->
     exists md pctx_md salt_len mgf1_md,
       EVP_MD_CTX_md ctx = Some md /\
       get_signature_md (pctx ctx) = Fetched pctx_md /\
       get_rsa_pss_saltlen (pctx ctx) = Fetched salt_len /\
       get_rsa_mgf1_md (pctx ctx) = Fetched mgf1_md /\
       (salt_len = -1 \/ salt_len = int_of_size_t (EVP_MD_size pctx_md)) /\
       EVP_MD_type mgf1_md = EVP_MD_type md /\
       EVP_MD_type pctx_md = EVP_MD_type md) /\
    (forall pctx_md salt_len,
       get_signature_md (pctx ctx) = Fetched pctx_md ->
       get_rsa_pss_saltlen (pctx ctx) = Fetched salt_len ->
       salt_len <> -1 ->
       salt_len <> int_of_size_t (EVP_MD_size pctx_md) ->
       t' = cleared t) /\
    (forall md mgf1_md,
       EVP_MD_CTX_md ctx = Some md ->
       get_rsa_mgf1_md (pctx ctx) = Fetched mgf1_md ->
       EVP_MD_type mgf1_md <> EVP_MD_type md ->
       t' = cleared t).
Proof.
  intros Hrsa Hpad. eexists. split; [apply evp_md_ctx_verify_run|].
  split; [|split].
  - intros Hmoved. apply counter_moved_approved in Hmoved.
    unfold signature_approved, rsa_parameters_ok, pss_parameters_ok in Hmoved.
    rewrite Hrsa, Hpad, Z.eqb_refl in Hmoved.
    destruct (EVP_MD_CTX_md ctx) as [md|]; [|discriminate].
    destruct (get_signature_md (pctx ctx)) as [pctx_md|]; [|discriminate].
    destruct (get_rsa_pss_saltlen (pctx ctx)) as [salt_len|];
      [|now rewrite !andb_false_r in Hmoved].
    destruct (get_rsa_mgf1_md (pctx ctx)) as [mgf1_md|];
      [|now rewrite !andb_false_r in Hmoved].
    exists md, pctx_md, salt_len, mgf1_md.
    repeat rewrite andb_true_iff in Hmoved.
    destruct Hmoved as [[[Hsame [Hsalt Hmgf]] _] _].
    rewrite orb_true_iff, !Z.eqb_eq in Hsalt.
    apply Z.eqb_eq in Hsame, Hmgf. auto 10.
  - intros pctx_md salt_len Hsig Hsalt Hn1 Hn2.
    assert (signature_approved ctx rsa_1024_ok md_ok = false) as ->;
      [|reflexivity].
    unfold signature_approved, rsa_parameters_ok, pss_parameters_ok.
    rewrite Hrsa, Hpad, Z.eqb_refl, Hsig, Hsalt.
    apply Z.eqb_neq in Hn1, Hn2. rewrite Hn1, Hn2.
    destruct (EVP_MD_CTX_md ctx); [|reflexivity].
    destruct (get_rsa_mgf1_md (pctx ctx));
      now rewrite ?andb_false_r.
  - intros md mgf1_md Hmd Hmgf Hne.
    assert (signature_approved ctx rsa_1024_ok md_ok = false) as ->;
      [|reflexivity].
    unfold signature_approved, rsa_parameters_ok, pss_parameters_ok.
    rewrite Hrsa, Hpad, Z.eqb_refl, Hmd, Hmgf.
    apply Z.eqb_neq in Hne. rewrite Hne.
    destruct (get_signature_md (pctx ctx)); [|reflexivity].
    destruct (get_rsa_pss_saltlen (pctx ctx));
      now rewrite ?andb_false_r.
Qed.

(** The scenario of the spec with salt length 16: not approved. *)
Lemma pss_rule_witness :
  is_rsa_key (pkey (pctx (rsa_pss_ctx sha256 256 16 sha256))) = true /\
  get_rsa_padding (pctx (rsa_pss_ctx sha256 256 16 sha256)) =
    Fetched RSA_PKCS1_PSS_PADDING /\
  EVP_DigestSign_verify_service_indicator all_ok
    (rsa_pss_ctx sha256 256 16 sha256) fresh_thread =
  Returned tt fresh_thread.
Proof.
  split; [reflexivity|]. split; [reflexivity|].
  destruct (pss_rule all_ok (rsa_pss_ctx sha256 256 16 sha256) 0
              is_md_fips_approved_for_signing fresh_thread
              eq_refl eq_refl) as [t' [Hrun [_ [Hsalt _]]]].
  unfold EVP_DigestSign_verify_service_indicator. rewrite Hrun. f_equal.
  apply (Hsalt sha256 16); [reflexivity | reflexivity | | ]; discriminate.
Defined.

(** The scenarios of the spec: digest sha256, 256-byte modulus, MGF1 digest
    sha256 and salt length 32 is counted, and so it is with the salt length
    left at -1; with salt length 16, or with MGF1 digest sha1, it is not. *)
Example pss_scenario :
  EVP_DigestSign_verify_service_indicator all_ok
    (rsa_pss_ctx sha256 256 32 sha256) fresh_thread =
    Returned tt (mk_thread (Some (mk_indicator 0 1)) []) /\
  EVP_DigestSign_verify_service_indicator all_ok
    (rsa_pss_ctx sha256 256 (-1) sha256) fresh_thread =
    Returned tt (mk_thread (Some (mk_indicator 0 1)) []) /\
  EVP_DigestVerify_verify_service_indicator all_ok
    (rsa_pss_ctx sha256 256 32 sha256) fresh_thread =
    Returned tt (mk_thread (Some (mk_indicator 0 1)) []) /\
  EVP_DigestSign_verify_service_indicator all_ok
    (rsa_pss_ctx sha256 256 16 sha256) fresh_thread =
    Returned tt fresh_thread /\
  EVP_DigestSign_verify_service_indicator all_ok
    (rsa_pss_ctx sha256 256 32 sha1) fresh_thread =
    Returned tt fresh_thread.
Proof. repeat split. Qed.

(** The parameters of an RSA context other than the size of its key. *)
Lemma rsa_parameters_ok_with_modulus bytes ctx md_ok :
  rsa_parameters_ok (with_modulus bytes ctx) md_ok = rsa_parameters_ok ctx md_ok.
Proof. reflexivity. Qed.

Lemma rsa_modulus_ok_signing bytes :
  rsa_modulus_ok 0 bytes = one_of [256; 384; 512] bytes.
Proof. reflexivity. Qed.

Lemma rsa_modulus_ok_verifying bytes :
  rsa_modulus_ok 1 bytes = one_of [128; 256; 384; 512] bytes.
Proof. reflexivity. Qed.

(** C7: for a context with an RSA or RSA-PSS key, the signing path
    approves exactly when the parameters other than the key size pass and
    the modulus has 256, 384 or 512 bytes; the verifying path exactly when
    they pass and the modulus has 128, 256, 384 or 512 bytes.  The other
    parameters are judged without looking at the key size, so a size
    outside these sets is never approved, and 128 bytes never on the
    signing path. *)
Theorem rsa_modulus_rule (e : alloc) (ctx : EVP_MD_CTX) (t : thread) :
  is_rsa_key (pkey (pctx ctx)) = true ->
  EVP_DigestSign_verify_service_indicator e ctx t =
    Returned tt
      (cleared
         (if rsa_parameters_ok ctx is_md_fips_approved_for_signing
             && one_of [256; 384; 512]
                  (size_t_of_int (EVP_PKEY_size (pkey (pctx ctx))))
          then after_update e t else t)) /\
  EVP_DigestVerify_verify_service_indicator e ctx t =
    Returned tt
      (cleared
         (if rsa_parameters_ok ctx is_md_fips_approved_for_verifying
             && one_of [128; 256; 384; 512]
                  (size_t_of_int (EVP_PKEY_size (pkey (pctx ctx))))
          then after_update e t else t)) /\
  (forall bytes md_ok,
     rsa_parameters_ok (with_modulus bytes ctx) md_ok =
     rsa_parameters_ok ctx md_ok).
Proof.
  intros Hrsa.
  unfold EVP_DigestSign_verify_service_indicator,
    EVP_DigestVerify_verify_service_indicator.
  rewrite !evp_md_ctx_verify_run. unfold signature_approved.
  rewrite Hrsa, rsa_modulus_ok_signing, rsa_modulus_ok_verifying.
  repeat split.
Qed.

(** A 128-byte modulus with sha256 and PKCS#1 v1.5 padding: counted on the
    verifying path, not counted on the signing path. *)
Lemma rsa_modulus_rule_witness :
  is_rsa_key (pkey (pctx (rsa_pkcs1_ctx sha256 128))) = true /\
  EVP_DigestSign_verify_service_indicator all_ok (rsa_pkcs1_ctx sha256 128)
    fresh_thread = Returned tt fresh_thread /\
  EVP_DigestVerify_verify_service_indicator all_ok (rsa_pkcs1_ctx sha256 128)
    fresh_thread = Returned tt (mk_thread (Some (mk_indicator 0 1)) []).
Proof.
  split; [reflexivity|].
  destruct (rsa_modulus_rule all_ok (rsa_pkcs1_ctx sha256 128) fresh_thread
              eq_refl) as [Hsign [Hverify _]].
  split; [exact Hsign | exact Hverify].
Defined.

(** The sizes 256, 384 and 512 are counted on both paths, 128 on the
    verifying path only, and 64, 192 and 1024 on neither. *)
Example rsa_modulus_scenario :
  (forall bytes, In bytes [256; 384; 512] ->
     EVP_DigestSign_verify_service_indicator all_ok
       (rsa_pkcs1_ctx sha256 bytes) fresh_thread =
       Returned tt (mk_thread (Some (mk_indicator 0 1)) []) /\
     EVP_DigestVerify_verify_service_indicator all_ok
       (rsa_pkcs1_ctx sha256 bytes) fresh_thread =
       Returned tt (mk_thread (Some (mk_indicator 0 1)) [])) /\
  (forall bytes, In bytes [64; 192; 1024] ->
     EVP_DigestSign_verify_service_indicator all_ok
       (rsa_pkcs1_ctx sha256 bytes) fresh_thread = Returned tt fresh_thread /\
     EVP_DigestVerify_verify_service_indicator all_ok
       (rsa_pkcs1_ctx sha256 bytes) fresh_thread = Returned tt fresh_thread).
Proof.
  split; intros bytes Hin; cbn [In] in Hin;
    repeat (destruct Hin as [<-|Hin]; [split; reflexivity|]);
    contradiction.
Qed.

(** ** Failures of the probe *)

Lemma probe_fails_not_approved ctx rsa_1024_ok md_ok :
  probe_fails ctx = true -> signature_approved ctx rsa_1024_ok md_ok = false.
Proof.
  unfold probe_fails, signature_approved, rsa_parameters_ok, ec_parameters_ok,
    pss_parameters_ok, failed.
  destruct (EVP_MD_CTX_md ctx) as [md|].
  - destruct (is_rsa_key (pkey (pctx ctx))); [|discriminate].
    cbn [andb].
    destruct (get_signature_md (pctx ctx)); [|reflexivity].
    destruct (get_rsa_padding (pctx ctx)) as [padding|]; [|reflexivity].
    cbn [orb].
    destruct (padding =? RSA_PKCS1_PSS_PADDING); [|discriminate].
    cbn [andb].
    destruct (get_rsa_pss_saltlen (pctx ctx));
      [|intros _; now rewrite !andb_false_r].
    destruct (get_rsa_mgf1_md (pctx ctx)); [discriminate|].
    intros _. now rewrite !andb_false_r.
  - intros _.
    destruct (is_rsa_key (pkey (pctx ctx))); [reflexivity|].
    destruct (EVP_PKEY_id (pkey (pctx ctx)) =? EVP_PKEY_EC); reflexivity.
Qed.

(** C8: the composite predicate always returns, and with an empty error
    queue, whatever its probe raised.  If no digest is bound, or the key is
    an RSA key and the accessor of the signature digest or of the padding
    fails, or the padding is PSS and the accessor of the salt length or of
    the MGF1 digest fails, the indicator state is as it was before. *)
Theorem probe_failures_swallowed (e : alloc) (ctx : EVP_MD_CTX)
    (rsa_1024_ok : Z) (md_ok : Z -> Z) (t : thread) :
  (exists t',
     evp_md_ctx_verify_service_indicator e ctx rsa_1024_ok md_ok t =
       Returned tt t' /\
     err_queue t' = []) /\
  (probe_fails ctx = true ->
   evp_md_ctx_verify_service_indicator e ctx rsa_1024_ok md_ok t =
     Returned tt (mk_thread (tls_indicator t) [])).
Proof.
  split.
  - eexists. split; [apply evp_md_ctx_verify_run | reflexivity].
  - intros Hfail. apply not_approved_cleared.
    now apply probe_fails_not_approved.
Qed.

(** A context whose salt-length accessor fails, in a thread that has
    errors queued already. *)
Lemma probe_failures_swallowed_witness :
  probe_fails
    (mk_md_ctx (Some sha256)
       (mk_pkey_ctx (rsa_key 256) (Fetched sha256)
          (Fetched RSA_PKCS1_PSS_PADDING)
          (Failed [ERR ERR_LIB_EVP (ERR_R_OTHER 1)]) (Fetched sha256))) = true /\
  EVP_DigestSign_verify_service_indicator all_ok
    (mk_md_ctx (Some sha256)
       (mk_pkey_ctx (rsa_key 256) (Fetched sha256)
          (Fetched RSA_PKCS1_PSS_PADDING)
          (Failed [ERR ERR_LIB_EVP (ERR_R_OTHER 1)]) (Fetched sha256)))
    (mk_thread (Some (mk_indicator 0 9)) [ERR ERR_LIB_RSA (ERR_R_OTHER 2)]) =
  Returned tt (mk_thread (Some (mk_indicator 0 9)) []).
Proof.
  split; [reflexivity|].
  apply (proj2 (probe_failures_swallowed all_ok
                  (mk_md_ctx (Some sha256)
                     (mk_pkey_ctx (rsa_key 256) (Fetched sha256)
                        (Fetched RSA_PKCS1_PSS_PADDING)
                        (Failed [ERR ERR_LIB_EVP (ERR_R_OTHER 1)])
                        (Fetched sha256)))
                  0 is_md_fips_approved_for_signing
                  (mk_thread (Some (mk_indicator 0 9))
                             [ERR ERR_LIB_RSA (ERR_R_OTHER 2)]))).
  reflexivity.
Defined.

(** ** The build without AWSLC_FIPS *)

(** C5: without AWSLC_FIPS the snapshot before a call is 0 and the
    snapshot after it is 1, in every state and without touching it; the
    second is greater than the first, so every operation that returns is
    reported as approved. *)
Theorem non_fips_always_approved (t : thread) (operation : M unit) :
  NonFips.FIPS_service_indicator_before_call t = Returned 0 t /\
  NonFips.FIPS_service_indicator_after_call t = Returned 1 t /\
  0 < 1 /\
  bracketed NonFips.FIPS_service_indicator_before_call
            NonFips.FIPS_service_indicator_after_call operation t =
    (operation ;; ret true) t.
Proof.
  unfold bracketed, bind, NonFips.FIPS_service_indicator_before_call,
    NonFips.FIPS_service_indicator_after_call, ret.
  destruct (operation t); repeat split.
Qed.

(** ** Well-formed threads stay well-formed *)


Lemma well_formed_with_state d c t :
  in_u64 d -> in_u64 c -> well_formed (with_state d c t).
Proof. intros Hd Hc. split; assumption. Qed.

Lemma well_formed_after_failed_get e t :
  well_formed t -> well_formed (after_failed_get e t).
Proof. intros H. exact H. Qed.

Lemma well_formed_cleared t : well_formed t -> well_formed (cleared t).
Proof. intros H. exact H. Qed.

Lemma well_formed_after_update e t :
  well_formed t -> well_formed (after_update e t).
Proof.
  intros Hwf. destruct (well_formed_bounds t Hwf) as [Hd Hc].
  unfold after_update.
  destruct (store_available e t); [|exact Hwf].
  destruct (lock_depth t =? 0); [|exact Hwf].
  apply well_formed_with_state; [exact Hd | apply u64_range].
Qed.

(** The counter after the update primitive is the old one or its
    successor. *)
Lemma counter_after_update_cases e t :
  counter_of (after_update e t) = counter_of t \/
  counter_of (after_update e t) = u64 (counter_of t + 1).
Proof.
  rewrite counter_after_update.
  destruct (store_available e t && (lock_depth t =? 0)); auto.
Qed.

Lemma step_ok_same t : step_ok t (Returned None t).
Proof. cbn. repeat split; auto. discriminate. Qed.

Lemma step_ok_update e t : step_ok t (Returned None (after_update e t)).
Proof.
  cbn. split; [apply well_formed_after_update|].
  split; [apply counter_after_update_cases | discriminate].
Qed.

Lemma step_ok_cleared t t' :
  step_ok t (Returned None t') -> step_ok t (Returned None (cleared t')).
Proof. intros H. exact H. Qed.

Lemma step_ok_guarded (b : bool) e t :
  step_ok t (no_value (if b then FIPS_service_indicator_update_state e
                       else ret tt) t).
Proof.
  unfold no_value, bind.
  destruct b; [rewrite update_state_after; apply step_ok_update|].
  apply step_ok_same.
Qed.

Lemma step_ok_signature e ctx rsa_1024_ok md_ok t :
  step_ok t
    (no_value (evp_md_ctx_verify_service_indicator e ctx rsa_1024_ok md_ok) t).
Proof.
  unfold no_value, bind. rewrite evp_md_ctx_verify_run.
  apply step_ok_cleared.
  destruct (signature_approved ctx rsa_1024_ok md_ok);
    [apply step_ok_update | apply step_ok_same].
Qed.

Lemma step_ok_snapshot e t :
  step_ok t (value (service_indicator_get_counter e) t).
Proof.
  unfold value, bind. rewrite get_counter_run. unfold ret. cbn.
  destruct (store_available e t).
  - split; [|split].
    + intros Hwf. destruct (well_formed_bounds t Hwf).
      now apply well_formed_with_state.
    + left. reflexivity.
    + intros s Hs. injection Hs as <-. split; reflexivity.
  - split; [|split].
    + apply well_formed_after_failed_get.
    + left. reflexivity.
    + intros s Hs. injection Hs as <-. split; reflexivity.
Qed.

(** Every call of the subsystem is such a step. *)
Lemma exec_step e c t : step_ok t (exec e c t).
Proof.
  destruct c; cbn [exec];
    unfold FIPS_service_indicator_before_call,
      FIPS_service_indicator_after_call,
      AEAD_GCM_verify_service_indicator, AEAD_CCM_verify_service_indicator,
      AES_CMAC_verify_service_indicator,
      EC_KEY_keygen_verify_service_indicator, ECDH_verify_service_indicator,
      EVP_Cipher_verify_service_indicator,
      EVP_DigestVerify_verify_service_indicator,
      EVP_DigestSign_verify_service_indicator,
      HMAC_verify_service_indicator, TLSKDF_verify_service_indicator;
    try apply step_ok_snapshot; try apply step_ok_guarded;
    try apply step_ok_signature.
  - (* update *)
    apply (step_ok_guarded true).
  - (* lock *)
    unfold no_value, bind. rewrite lock_state_run.
    destruct (store_available e t).
    + destruct (u64 (lock_depth t + 1) <? lock_depth t); [exact I|].
      cbn. split; [|split; [left; reflexivity | discriminate]].
      intros Hwf. destruct (well_formed_bounds t Hwf) as [_ Hc].
      split; [apply u64_range | exact Hc].
    + apply (step_ok_same (after_failed_get e t)).
  - (* unlock *)
    unfold no_value, bind. rewrite unlock_state_run.
    destruct (store_available e t).
    + destruct (lock_depth t =? 0); [exact I|].
      cbn. split; [|split; [left; reflexivity | discriminate]].
      intros Hwf. destruct (well_formed_bounds t Hwf) as [_ Hc].
      split; [apply u64_range | exact Hc].
    + apply (step_ok_same (after_failed_get e t)).
  - (* key generation *)
    unfold EVP_PKEY_keygen_verify_service_indicator.
    destruct ((type pkey0 =? EVP_PKEY_RSA) || (type pkey0 =? EVP_PKEY_RSA_PSS));
      [apply step_ok_guarded|].
    destruct (type pkey0 =? EVP_PKEY_EC);
      [apply step_ok_guarded | apply (step_ok_guarded false e)].
Qed.


(** A snapshot call returns the counter of the thread and leaves it where
    it is, whether or not the store can be had. *)
Lemma snapshot_is_counter e t :
  exists t',
    service_indicator_get_counter e t = Returned (counter_of t) t' /\
    counter_of t' = counter_of t /\
    lock_depth t' = lock_depth t.
Proof.
  rewrite get_counter_run. eexists. split; [reflexivity|].
  destruct (store_available e t); split; reflexivity.
Qed.






(** Snapshots, lock and unlock leave the counter where it is. *)
Lemma exec_no_update e c t v t' :
  takes_no_update c = true ->
  exec e c t = Returned v t' ->
  counter_of t' = counter_of t.
Proof.
  intros Hc Hrun. destruct c; try discriminate Hc; cbn [exec] in Hrun.
  - unfold value, bind, FIPS_service_indicator_before_call in Hrun.
    destruct (snapshot_is_counter e t) as [t1 [H1 [Hc1 _]]].
    rewrite H1 in Hrun. injection Hrun as _ <-. exact Hc1.
  - unfold value, bind, FIPS_service_indicator_after_call in Hrun.
    destruct (snapshot_is_counter e t) as [t1 [H1 [Hc1 _]]].
    rewrite H1 in Hrun. injection Hrun as _ <-. exact Hc1.
  - unfold no_value, bind in Hrun. rewrite lock_state_run in Hrun.
    destruct (store_available e t);
      [destruct (u64 (lock_depth t + 1) <? lock_depth t); [discriminate|]|];
      injection Hrun as _ <-; reflexivity.
  - unfold no_value, bind in Hrun. rewrite unlock_state_run in Hrun.
    destruct (store_available e t);
      [destruct (lock_depth t =? 0); [discriminate|]|];
      injection Hrun as _ <-; reflexivity.
Qed.

(** ** Further scenarios of the spec *)

(** AEAD-GCM: key length 16 is counted, key length 24 is not. *)
Example aead_gcm_scenario :
  AEAD_GCM_verify_service_indicator all_ok (mk_aead_ctx (mk_aead 16) 16)
    fresh_thread = Returned tt (mk_thread (Some (mk_indicator 0 1)) []) /\
  AEAD_GCM_verify_service_indicator all_ok (mk_aead_ctx (mk_aead 24) 16)
    fresh_thread = Returned tt fresh_thread.
Proof. split; reflexivity. Qed.

(** EC key generation: secp256r1 is counted, secp256k1 is not. *)
Example ec_keygen_scenario :
  EC_KEY_keygen_verify_service_indicator all_ok
    (mk_ec_key (mk_group NID_X9_62_prime256v1)) fresh_thread =
    Returned tt (mk_thread (Some (mk_indicator 0 1)) []) /\
  EC_KEY_keygen_verify_service_indicator all_ok
    (mk_ec_key (mk_group NID_secp256k1)) fresh_thread =
    Returned tt fresh_thread.
Proof. split; reflexivity. Qed.

(** Reentrancy: an approved operation inside a locked section does not
    move the counter; once unlocked, the outer operation counts once. *)
Example reentrancy_scenario :
  snapshots
    [(all_ok, Before_call);
     (all_ok, Lock_state);
     (all_ok, Before_call);
     (all_ok, HMAC_verify sha256);
     (all_ok, After_call);
     (all_ok, Unlock_state);
     (all_ok, EVP_DigestSign_verify (rsa_pss_ctx sha256 256 32 sha256));
     (all_ok, After_call)]
    fresh_thread = [0; 0; 0; 1].
Proof. reflexivity. Qed.

(** SHA-1 is approved for verifying and not for signing. *)
Example sha1_scenario :
  EVP_DigestVerify_verify_service_indicator all_ok (rsa_pkcs1_ctx sha1 256)
    fresh_thread = Returned tt (mk_thread (Some (mk_indicator 0 1)) []) /\
  EVP_DigestSign_verify_service_indicator all_ok (rsa_pkcs1_ctx sha1 256)
    fresh_thread = Returned tt fresh_thread.
Proof. split; reflexivity. Qed.

(** ** Every verification function is a rule and the update primitive *)

(** Splits every integer comparison in the goal into its two cases. *)
Ltac split_comparisons :=
  repeat match goal with
         | |- context [?x =? ?y] => destruct (x =? y)
         end.

(** Refinement: each call that may reach the update primitive reaches it
    exactly when its rule holds; digest-sign and digest-verify then empty
    the error queue, the others do nothing more. *)
Lemma exec_verify_run e c t :
  takes_no_update c = false ->
  exec e c t =
  Returned None
    (let t1 := if approves c then after_update e t else t in
     if clears_errors c then cleared t1 else t1).
Proof.
  intros Hc. destruct c; try discriminate Hc;
    cbn [exec approves clears_errors]; unfold no_value, bind.
  - now rewrite update_state_after.
  - unfold AEAD_GCM_verify_service_indicator, one_of, existsb.
    split_comparisons; cbn [orb]; now rewrite ?update_state_after.
  - unfold AEAD_CCM_verify_service_indicator.
    split_comparisons; cbn [andb]; now rewrite ?update_state_after.
  - unfold AES_CMAC_verify_service_indicator, one_of, existsb.
    split_comparisons; cbn [orb]; now rewrite ?update_state_after.
  - unfold EC_KEY_keygen_verify_service_indicator.
    destruct (c_true (is_ec_fips_approved (EC_GROUP_get_curve_name (group eckey))));
      now rewrite ?update_state_after.
  - unfold ECDH_verify_service_indicator, EC_KEY_get0_group.
    destruct (c_true (is_ec_fips_approved (EC_GROUP_get_curve_name (group ec_key))));
      now rewrite ?update_state_after.
  - unfold EVP_PKEY_keygen_verify_service_indicator, is_rsa_key, EVP_PKEY_id.
    destruct ((type pkey0 =? EVP_PKEY_RSA) || (type pkey0 =? EVP_PKEY_RSA_PSS)).
    + destruct (one_of [256; 384; 512] (size_t_of_int (EVP_PKEY_size pkey0)));
        now rewrite ?update_state_after.
    + destruct (type pkey0 =? EVP_PKEY_EC); cbn [andb]; [|reflexivity].
      destruct (c_true (is_ec_fips_approved
                          (EC_GROUP_get_curve_name (group (pkey_ec pkey0)))));
        now rewrite ?update_state_after.
  - unfold EVP_Cipher_verify_service_indicator.
    match goal with
    | |- context [if ?b then FIPS_service_indicator_update_state e else _] =>
        destruct b
    end; now rewrite ?update_state_after.
  - unfold EVP_DigestVerify_verify_service_indicator.
    now rewrite evp_md_ctx_verify_run.
  - unfold EVP_DigestSign_verify_service_indicator.
    now rewrite evp_md_ctx_verify_run.
  - unfold HMAC_verify_service_indicator.
    match goal with
    | |- context [if ?b then FIPS_service_indicator_update_state e else _] =>
        destruct b
    end; now rewrite ?update_state_after.
  - unfold TLSKDF_verify_service_indicator.
    match goal with
    | |- context [if ?b then FIPS_service_indicator_update_state e else _] =>
        destruct b
    end; now rewrite ?update_state_after.
Qed.

(** Snapshots, as a step of a thread. *)
Lemma exec_snapshot_run e c t :
  c = Before_call \/ c = After_call ->
  exec e c t =
  Returned (Some (counter_of t))
    (if store_available e t
     then with_state (lock_depth t) (counter_of t) t
     else after_failed_get e t).
Proof.
  intros [-> | ->]; cbn [exec];
    unfold value, bind, FIPS_service_indicator_before_call,
      FIPS_service_indicator_after_call;
    now rewrite get_counter_run.
Qed.

(** A call that does not reach the update primitive leaves the counter
    where it is. *)
Lemma exec_not_approved e c t v t' :
  approves c = false ->
  exec e c t = Returned v t' ->
  counter_of t' = counter_of t.
Proof.
  intros Hrule Hrun. destruct (takes_no_update c) eqn:Hc;
    [exact (exec_no_update e c t v t' Hc Hrun)|].
  rewrite (exec_verify_run e c t Hc), Hrule in Hrun.
  injection Hrun as _ <-. cbv zeta.
  destruct (clears_errors c); reflexivity.
Qed.


(** ** The counter over sequences of calls *)


(** Two snapshots in a row are the counter of the thread, twice. *)
Example before_call_twice (e1 e2 : alloc) (t : thread) :
  snapshots [(e1, Before_call); (e2, Before_call)] t =
  [counter_of t; counter_of t].
Proof.
  cbn [snapshots exec]. unfold value, bind, FIPS_service_indicator_before_call.
  destruct (snapshot_is_counter e1 t) as [t1 [H1 [Hc1 _]]].
  destruct (snapshot_is_counter e2 t1) as [t2 [H2 _]].
  rewrite H1. unfold ret. rewrite H2, Hc1. reflexivity.
Qed.



(** ** Facts about the threads the primitives produce *)

Lemma lock_depth_after_update e t :
  lock_depth (after_update e t) = lock_depth t.
Proof.
  unfold after_update.
  destruct (store_available e t); [|reflexivity].
  destruct (lock_depth t =? 0); reflexivity.
Qed.

Lemma state_kept_after_update e t :
  tls_indicator t <> None -> tls_indicator (after_update e t) <> None.
Proof.
  unfold after_update. intros H.
  destruct (store_available e t); [|exact H].
  destruct (lock_depth t =? 0); [discriminate | exact H].
Qed.

Lemma after_update_locked e t :
  lock_depth t <> 0 -> after_update e t = t.
Proof.
  intros Hd. unfold after_update.
  pose proof (locked_has_state t Hd) as Hs.
  unfold store_available.
  destruct (tls_indicator t); [|congruence].
  apply Z.eqb_neq in Hd. now rewrite Hd.
Qed.

(** With the state in the slot, the allocator is not consulted. *)
Lemma store_available_with_state e t :
  tls_indicator t <> None -> store_available e t = true.
Proof.
  unfold store_available. destruct (tls_indicator t); congruence.
Qed.

Lemma after_update_with_state e e' t :
  tls_indicator t <> None -> after_update e t = after_update e' t.
Proof.
  intros H. unfold after_update.
  now rewrite !(store_available_with_state _ t H).
Qed.

(** ** One call, with and without the state *)

(** A thread never loses its state. *)
Lemma exec_keeps_state e c t v t' :
  tls_indicator t <> None ->
  exec e c t = Returned v t' ->
  tls_indicator t' <> None.
Proof.
  intros Hs Hrun. destruct (takes_no_update c) eqn:Hc.
  - destruct c; try discriminate Hc.
    + rewrite (exec_snapshot_run e Before_call t (or_introl eq_refl)) in Hrun.
      rewrite (store_available_with_state e t Hs) in Hrun.
      injection Hrun as _ <-. discriminate.
    + rewrite (exec_snapshot_run e After_call t (or_intror eq_refl)) in Hrun.
      rewrite (store_available_with_state e t Hs) in Hrun.
      injection Hrun as _ <-. discriminate.
    + cbn [exec] in Hrun. unfold no_value, bind in Hrun.
      rewrite lock_state_run, (store_available_with_state e t Hs) in Hrun.
      destruct (u64 (lock_depth t + 1) <? lock_depth t); [discriminate|].
      injection Hrun as _ <-. discriminate.
    + cbn [exec] in Hrun. unfold no_value, bind in Hrun.
      rewrite unlock_state_run, (store_available_with_state e t Hs) in Hrun.
      destruct (lock_depth t =? 0); [discriminate|].
      injection Hrun as _ <-. discriminate.
  - rewrite (exec_verify_run e c t Hc) in Hrun. injection Hrun as _ <-.
    cbv zeta.
    assert (tls_indicator (if approves c then after_update e t else t) <> None)
      as H by (destruct (approves c);
               [now apply state_kept_after_update | exact Hs]).
    destruct (clears_errors c); exact H.
Qed.

(** Only lock and unlock move the lock depth. *)
Lemma exec_keeps_depth e c t v t' :
  is_lock_or_unlock c = false ->
  exec e c t = Returned v t' ->
  lock_depth t' = lock_depth t.
Proof.
  intros Hl Hrun. destruct (takes_no_update c) eqn:Hc.
  - destruct c; try discriminate Hc; try discriminate Hl.
    + rewrite (exec_snapshot_run e Before_call t (or_introl eq_refl)) in Hrun.
      injection Hrun as _ <-. destruct (store_available e t); reflexivity.
    + rewrite (exec_snapshot_run e After_call t (or_intror eq_refl)) in Hrun.
      injection Hrun as _ <-. destruct (store_available e t); reflexivity.
  - rewrite (exec_verify_run e c t Hc) in Hrun. injection Hrun as _ <-.
    cbv zeta.
    assert (lock_depth (if approves c then after_update e t else t)
            = lock_depth t) as H
      by (destruct (approves c);
          [apply lock_depth_after_update | reflexivity]).
    destruct (clears_errors c); exact H.
Qed.

(** No call but lock and unlock aborts. *)
Lemma exec_returns e c t :
  is_lock_or_unlock c = false ->
  exists v t', exec e c t = Returned v t'.
Proof.
  intros Hl. destruct (takes_no_update c) eqn:Hc.
  - destruct c; try discriminate Hc; try discriminate Hl.
    + rewrite (exec_snapshot_run e Before_call t (or_introl eq_refl)).
      eauto.
    + rewrite (exec_snapshot_run e After_call t (or_intror eq_refl)).
      eauto.
  - rewrite (exec_verify_run e c t Hc). eauto.
Qed.

(** A call made with the state in hand aborts exactly where [depth_step]
    says, and otherwise returns at the depth [depth_step] gives. *)
Lemma exec_depth_step e c t :
  well_formed t ->
  store_available e t = true ->
  match depth_step (lock_depth t) c with
  | None => exec e c t = Aborted
  | Some d => exists v t', exec e c t = Returned v t' /\ lock_depth t' = d
  end.
Proof.
  intros Hwf Ha. destruct (well_formed_bounds t Hwf) as [Hd _].
  destruct (is_lock_or_unlock c) eqn:Hl.
  - destruct c; try discriminate Hl; cbn [depth_step exec];
      unfold no_value, bind.
    + rewrite lock_state_run, Ha, (lock_overflow_test _ Hd), (u64_succ _ Hd).
      destruct (lock_depth t =? UINT64_MAX); [reflexivity|].
      eexists. eexists. split; reflexivity.
    + rewrite unlock_state_run, Ha.
      destruct (lock_depth t =? 0) eqn:E; [reflexivity|].
      apply Z.eqb_neq in E. rewrite (u64_pred _ Hd E).
      eexists. eexists. split; reflexivity.
  - assert (depth_step (lock_depth t) c = Some (lock_depth t)) as ->
      by (destruct c; try reflexivity; discriminate Hl).
    destruct (exec_returns e c t Hl) as [v [t' Hrun]].
    exists v, t'. split; [exact Hrun|].
    exact (exec_keeps_depth e c t v t' Hl Hrun).
Qed.

(** Without the state in hand, lock and unlock return. *)
Lemma exec_without_store e c t :
  store_available e t = false ->
  exists v t', exec e c t = Returned v t'.
Proof.
  intros Ha. destruct (is_lock_or_unlock c) eqn:Hl;
    [|now apply exec_returns].
  destruct c; try discriminate Hl; cbn [exec]; unfold no_value, bind.
  - rewrite lock_state_run, Ha. eauto.
  - rewrite unlock_state_run, Ha. eauto.
Qed.

(** What a call did to the availability of the state stays done. *)
Lemma exec_keeps_available e0 e c t v t' :
  store_available e0 t = true ->
  exec e c t = Returned v t' ->
  store_available e0 t' = true.
Proof.
  intros Ha Hrun. unfold store_available in *.
  destruct (tls_indicator t) as [i|] eqn:Hs.
  - assert (tls_indicator t' <> None) as Hs'
      by (apply (exec_keeps_state e c t v t'); [congruence | exact Hrun]).
    destruct (tls_indicator t'); congruence.
  - rewrite Ha. destruct (tls_indicator t'); reflexivity.
Qed.

Lemma exec_well_formed e c t v t' :
  well_formed t -> exec e c t = Returned v t' -> well_formed t'.
Proof.
  intros Hwf Hrun. pose proof (exec_step e c t) as Hstep.
  rewrite Hrun in Hstep. now apply Hstep.
Qed.

Lemma exec_locked_counter e c t v t' :
  lock_depth t <> 0 ->
  exec e c t = Returned v t' ->
  counter_of t' = counter_of t.
Proof.
  intros Hd Hrun. destruct (takes_no_update c) eqn:Hc;
    [exact (exec_no_update e c t v t' Hc Hrun)|].
  rewrite (exec_verify_run e c t Hc), (after_update_locked e t Hd) in Hrun.
  injection Hrun as _ <-. cbv zeta.
  destruct (approves c), (clears_errors c); reflexivity.
Qed.

(** ** Lock and unlock *)

(** X1: lock followed by unlock is a round trip.  In a well-formed thread
    whose state can be had and whose depth is below 2^64 - 1, the pair
    returns, the depth and the counter are what they were, and no error is
    raised; a thread that had its state already is left exactly as it
    was. *)
Theorem lock_unlock_round_trip (e1 e2 : alloc) (t : thread) :
  well_formed t ->
  store_available e1 t = true ->
  lock_depth t < UINT64_MAX ->
  (FIPS_service_indicator_lock_state e1 ;;
   FIPS_service_indicator_unlock_state e2) t =
    Returned tt (with_state (lock_depth t) (counter_of t) t) /\
  (tls_indicator t <> None ->
   (FIPS_service_indicator_lock_state e1 ;;
    FIPS_service_indicator_unlock_state e2) t = Returned tt t).
Proof.
  intros Hwf Ha Hlt. destruct (well_formed_bounds t Hwf) as [Hd _].
  assert ((FIPS_service_indicator_lock_state e1 ;;
           FIPS_service_indicator_unlock_state e2) t =
          Returned tt (with_state (lock_depth t) (counter_of t) t)) as Hrun.
  { unfold bind.
    rewrite lock_state_run, Ha, (lock_overflow_test _ Hd), (u64_succ _ Hd).
    assert ((lock_depth t =? UINT64_MAX) = false) as ->
      by (apply Z.eqb_neq; lia).
    rewrite unlock_state_run.
    cbn [store_available with_state tls_indicator lock_depth lock_state
           counter_of counter err_queue].
    unfold in_u64 in Hd.
    assert ((lock_depth t + 1 =? 0) = false) as ->
      by (apply Z.eqb_neq; lia).
    rewrite u64_small by (unfold UINT64_MAX in *; lia).
    now replace (lock_depth t + 1 - 1) with (lock_depth t) by lia. }
  split; [exact Hrun|].
  intros Hs. now rewrite Hrun, (with_state_same t Hs).
Qed.

Lemma lock_unlock_round_trip_witness :
  well_formed (mk_thread (Some (mk_indicator 3 7)) []) /\
  store_available no_memory (mk_thread (Some (mk_indicator 3 7)) []) = true /\
  lock_depth (mk_thread (Some (mk_indicator 3 7)) []) < UINT64_MAX /\
  (FIPS_service_indicator_lock_state no_memory ;;
   FIPS_service_indicator_unlock_state no_memory)
    (mk_thread (Some (mk_indicator 3 7)) []) =
  Returned tt (mk_thread (Some (mk_indicator 3 7)) []).
Proof.
  split; [vm_compute; intuition discriminate|].
  split; [reflexivity|]. split; [reflexivity|].
  apply (proj2 (lock_unlock_round_trip no_memory no_memory
                  (mk_thread (Some (mk_indicator 3 7)) [])
                  (conj (conj (Zle_bool_imp_le 0 3 eq_refl)
                              (Zle_bool_imp_le 3 UINT64_MAX eq_refl))
                        (conj (Zle_bool_imp_le 0 7 eq_refl)
                              (Zle_bool_imp_le 7 UINT64_MAX eq_refl)))
                  eq_refl eq_refl)).
  discriminate.
Defined.

(** X4: a single call aborts the process in two situations only, both with
    the state in hand: lock at depth 2^64 - 1 and unlock at depth 0.  No
    snapshot, update or verification function ever aborts. *)
Theorem abort_only_on_nesting_violation (e : alloc) (c : call) (t : thread) :
  well_formed t ->
  (exec e c t = Aborted <->
   store_available e t = true /\
   ((c = Lock_state /\ lock_depth t = UINT64_MAX) \/
    (c = Unlock_state /\ lock_depth t = 0))).
Proof.
  intros Hwf. split.
  - intros Habort. destruct (store_available e t) eqn:Ha.
    + split; [reflexivity|].
      pose proof (exec_depth_step e c t Hwf Ha) as Hstep.
      destruct c; cbn [depth_step] in Hstep;
        try (destruct Hstep as [v [t' [Hrun _]]]; congruence).
      * left. split; [reflexivity|].
        destruct (lock_depth t =? UINT64_MAX) eqn:E;
          [now apply Z.eqb_eq in E|].
        destruct Hstep as [v [t' [Hrun _]]]; congruence.
      * right. split; [reflexivity|].
        destruct (lock_depth t =? 0) eqn:E; [now apply Z.eqb_eq in E|].
        destruct Hstep as [v [t' [Hrun _]]]; congruence.
    + destruct (exec_without_store e c t Ha) as [v [t' Hrun]]. congruence.
  - intros [Ha [[-> Hd] | [-> Hd]]].
    + pose proof (exec_depth_step e Lock_state t Hwf Ha) as Hstep.
      cbn [depth_step] in Hstep. rewrite Hd in Hstep. exact Hstep.
    + pose proof (exec_depth_step e Unlock_state t Hwf Ha) as Hstep.
      cbn [depth_step] in Hstep. rewrite Hd in Hstep. exact Hstep.
Qed.

Lemma abort_only_on_nesting_violation_witness :
  well_formed fresh_thread /\
  exec all_ok Unlock_state fresh_thread = Aborted.
Proof.
  split; [exact I|].
  apply (abort_only_on_nesting_violation all_ok Unlock_state fresh_thread I).
  split; [reflexivity|]. right. split; reflexivity.
Defined.

(** ** Sequences of calls and the lock depth *)

Lemma store_available_for_step cs e c t v t' :
  store_available_for cs t = true ->
  exec e c t = Returned v t' ->
  store_available_for cs t' = true.
Proof.
  unfold store_available_for. rewrite !forallb_forall.
  intros Hall Hrun ec Hin.
  exact (exec_keeps_available (fst ec) e c t v t' (Hall ec Hin) Hrun).
Qed.

(** X2: whether a sequence of calls aborts is decided by its locks and
    unlocks alone.  In a well-formed thread whose state can be had at every
    call, the sequence aborts exactly if it unlocks at depth 0 or locks at
    depth 2^64 - 1, and otherwise returns at the depth the locks and unlocks
    add up to; so a properly nested sequence returns at the depth it started
    from, whatever snapshots, updates and verification calls it contains. *)
Theorem nesting_decides_abort (cs : list (alloc * call)) (t : thread) :
  well_formed t ->
  store_available_for cs t = true ->
  match depth_after (lock_depth t) cs with
  | None => run cs t = Aborted
  | Some d => exists t', run cs t = Returned tt t' /\ lock_depth t' = d
  end.
Proof.
  revert t. induction cs as [|[e c] cs IH]; intros t Hwf Hall.
  - exists t. split; reflexivity.
  - cbn [store_available_for forallb fst] in Hall.
    apply andb_true_iff in Hall as [Ha Hall].
    cbn [depth_after run]. unfold bind.
    pose proof (exec_depth_step e c t Hwf Ha) as Hstep.
    destruct (depth_step (lock_depth t) c) as [d|].
    + destruct Hstep as [v [t1 [Hrun Hd]]]. rewrite Hrun, <- Hd.
      apply IH.
      * exact (exec_well_formed e c t v t1 Hwf Hrun).
      * exact (store_available_for_step cs e c t v t1 Hall Hrun).
    + now rewrite Hstep.
Qed.

Lemma nesting_decides_abort_witness :
  well_formed fresh_thread /\
  store_available_for
    [(all_ok, Lock_state); (all_ok, HMAC_verify sha256); (all_ok, Lock_state);
     (all_ok, Unlock_state); (all_ok, Unlock_state)] fresh_thread = true /\
  exists t',
    run [(all_ok, Lock_state); (all_ok, HMAC_verify sha256);
         (all_ok, Lock_state); (all_ok, Unlock_state); (all_ok, Unlock_state)]
        fresh_thread = Returned tt t' /\
    lock_depth t' = 0.
Proof.
  split; [exact I|]. split; [reflexivity|].
  exact (nesting_decides_abort
           [(all_ok, Lock_state); (all_ok, HMAC_verify sha256);
            (all_ok, Lock_state); (all_ok, Unlock_state);
            (all_ok, Unlock_state)] fresh_thread I eq_refl).
Defined.

(** X3: nothing counts inside a locked section.  If the depth of a
    well-formed thread is above 0 before every call of a sequence, every
    snapshot taken during the sequence is the counter the sequence started
    with, and so is the counter after it. *)
Theorem locked_section_freezes_counter (cs : list (alloc * call)) (t : thread) :
  well_formed t ->
  locked_throughout (lock_depth t) cs = true ->
  Forall (fun s => s = counter_of t) (snapshots cs t) /\
  (forall t', run cs t = Returned tt t' -> counter_of t' = counter_of t).
Proof.
  revert t. induction cs as [|[e c] cs IH]; intros t Hwf Hlocked.
  - split; [constructor|]. intros t' Hrun. now injection Hrun as <-.
  - cbn [locked_throughout] in Hlocked.
    apply andb_true_iff in Hlocked as [Hpos Hlocked].
    apply Z.ltb_lt in Hpos.
    assert (lock_depth t <> 0) as Hd by lia.
    pose proof (store_available_with_state e t (locked_has_state t Hd)) as Ha.
    pose proof (exec_depth_step e c t Hwf Ha) as Hstep.
    cbn [snapshots run]. unfold bind.
    destruct (exec e c t) as [|v t1] eqn:Hrun;
      [split; [constructor | discriminate]|].
    destruct (depth_step (lock_depth t) c) as [d|]; [|discriminate].
    destruct Hstep as [v' [t1' [Heq Hd1]]].
    injection Heq as <- <-. rewrite <- Hd1 in Hlocked.
    pose proof (exec_locked_counter e c t v t1 Hd Hrun) as Hc.
    destruct (IH t1 (exec_well_formed e c t v t1 Hwf Hrun) Hlocked)
      as [Hsnaps Hend].
    rewrite Hc in Hsnaps, Hend.
    split; [|exact Hend].
    destruct v as [s|]; [|exact Hsnaps].
    constructor; [|exact Hsnaps].
    pose proof (exec_step e c t) as Hs. rewrite Hrun in Hs.
    now apply Hs.
Qed.

Lemma locked_section_freezes_counter_witness :
  well_formed (mk_thread (Some (mk_indicator 1 5)) []) /\
  locked_throughout (lock_depth (mk_thread (Some (mk_indicator 1 5)) []))
    [(all_ok, Before_call); (all_ok, HMAC_verify sha256);
     (all_ok, Update_state); (all_ok, After_call)] = true /\
  Forall (fun s => s = 5)
    (snapshots [(all_ok, Before_call); (all_ok, HMAC_verify sha256);
                (all_ok, Update_state); (all_ok, After_call)]
       (mk_thread (Some (mk_indicator 1 5)) [])).
Proof.
  split; [vm_compute; intuition discriminate|]. split; [reflexivity|].
  apply (proj1 (locked_section_freezes_counter
                  [(all_ok, Before_call); (all_ok, HMAC_verify sha256);
                   (all_ok, Update_state); (all_ok, After_call)]
                  (mk_thread (Some (mk_indicator 1 5)) [])
                  (conj (conj (Zle_bool_imp_le 0 1 eq_refl)
                              (Zle_bool_imp_le 1 UINT64_MAX eq_refl))
                        (conj (Zle_bool_imp_le 0 5 eq_refl)
                              (Zle_bool_imp_le 5 UINT64_MAX eq_refl)))
                  eq_refl)).
Defined.

(** The counter after a call made with the state in hand: one more
    (modulo 2^64) if the rule of the call holds and the thread is unlocked,
    and the same otherwise. *)
Lemma exec_counter_exact e c t v t' :
  store_available e t = true ->
  exec e c t = Returned v t' ->
  counter_of t' =
  if approves c && (lock_depth t =? 0)
  then u64 (counter_of t + 1)
  else counter_of t.
Proof.
  intros Ha Hrun. destruct (approves c) eqn:Hrule; cbn [andb];
    [|exact (exec_not_approved e c t v t' Hrule Hrun)].
  assert (takes_no_update c = false) as Hc
    by (destruct c; try reflexivity; discriminate Hrule).
  rewrite (exec_verify_run e c t Hc), Hrule in Hrun.
  injection Hrun as _ <-. cbv zeta.
  assert (counter_of (if clears_errors c then cleared (after_update e t)
                      else after_update e t)
          = counter_of (after_update e t)) as ->
    by (destruct (clears_errors c); reflexivity).
  now rewrite counter_after_update, Ha.
Qed.

(** X5: the counter counts.  In a well-formed thread whose state can be
    had at every call, a sequence of calls that returns leaves the counter
    at its old value plus the number of calls whose rule held and which
    were made at depth 0, modulo 2^64: each approved operation outside a
    locked section counts exactly once, and nothing else counts. *)
Theorem counter_counts_approved (cs : list (alloc * call)) (t t' : thread) :
  well_formed t ->
  store_available_for cs t = true ->
  run cs t = Returned tt t' ->
  counter_of t' = u64 (counter_of t + approved_unlocked (lock_depth t) cs).
Proof.
  revert t. induction cs as [|[e c] cs IH]; intros t Hwf Hall Hrun.
  - injection Hrun as <-. cbn [approved_unlocked]. rewrite Z.add_0_r.
    symmetry. apply u64_small. now apply well_formed_bounds.
  - cbn [store_available_for forallb fst] in Hall.
    apply andb_true_iff in Hall as [Ha Hall].
    cbn [run] in Hrun. unfold bind in Hrun.
    destruct (exec e c t) as [|v t1] eqn:Hexec; [discriminate|].
    pose proof (exec_depth_step e c t Hwf Ha) as Hstep.
    cbn [approved_unlocked].
    destruct (depth_step (lock_depth t) c) as [d|]; [|congruence].
    destruct Hstep as [v' [t1' [Heq Hd]]]. rewrite Hexec in Heq.
    injection Heq as <- <-.
    rewrite (IH t1 (exec_well_formed e c t v t1 Hwf Hexec)
                (store_available_for_step cs e c t v t1 Hall Hexec) Hrun).
    rewrite Hd, (exec_counter_exact e c t v t1 Ha Hexec).
    destruct (approves c && (lock_depth t =? 0)).
    + unfold u64. rewrite Zplus_mod_idemp_l. f_equal. lia.
    + reflexivity.
Qed.

Lemma counter_counts_approved_witness :
  well_formed fresh_thread /\
  store_available_for
    [(all_ok, HMAC_verify sha256); (all_ok, Lock_state);
     (all_ok, HMAC_verify sha256); (all_ok, Unlock_state);
     (all_ok, AEAD_CCM_verify (mk_aead_ctx (mk_aead 16) 8));
     (all_ok, AEAD_GCM_verify (mk_aead_ctx (mk_aead 16) 16))]
    fresh_thread = true /\
  run [(all_ok, HMAC_verify sha256); (all_ok, Lock_state);
       (all_ok, HMAC_verify sha256); (all_ok, Unlock_state);
       (all_ok, AEAD_CCM_verify (mk_aead_ctx (mk_aead 16) 8));
       (all_ok, AEAD_GCM_verify (mk_aead_ctx (mk_aead 16) 16))]
      fresh_thread = Returned tt (mk_thread (Some (mk_indicator 0 2)) []) /\
  counter_of (mk_thread (Some (mk_indicator 0 2)) []) = 2.
Proof.
  split; [exact I|]. split; [reflexivity|]. split; [reflexivity|].
  exact (counter_counts_approved
           [(all_ok, HMAC_verify sha256); (all_ok, Lock_state);
            (all_ok, HMAC_verify sha256); (all_ok, Unlock_state);
            (all_ok, AEAD_CCM_verify (mk_aead_ctx (mk_aead 16) 8));
            (all_ok, AEAD_GCM_verify (mk_aead_ctx (mk_aead 16) 16))]
           fresh_thread (mk_thread (Some (mk_indicator 0 2)) [])
           I eq_refl eq_refl).
Defined.

(** ** The allocator and the error queue *)

Lemma exec_with_state e e' c t :
  tls_indicator t <> None -> exec e c t = exec e' c t.
Proof.
  intros Hs. destruct (takes_no_update c) eqn:Hc.
  - destruct c; try discriminate Hc.
    + rewrite !(exec_snapshot_run _ Before_call t (or_introl eq_refl)).
      now rewrite !(store_available_with_state _ t Hs).
    + rewrite !(exec_snapshot_run _ After_call t (or_intror eq_refl)).
      now rewrite !(store_available_with_state _ t Hs).
    + cbn [exec]. unfold no_value, bind.
      now rewrite !lock_state_run, !(store_available_with_state _ t Hs).
    + cbn [exec]. unfold no_value, bind.
      now rewrite !unlock_state_run, !(store_available_with_state _ t Hs).
  - rewrite !(exec_verify_run _ c t Hc).
    now rewrite (after_update_with_state e e' t Hs).
Qed.

(** X6: once a thread has its state, allocation plays no part any more.
    Two sequences of the same calls, whatever the allocator does during
    each, take such a thread to the same outcome and show it the same
    snapshots; and the thread still has its state afterwards. *)
Theorem allocator_irrelevant_with_state (cs cs' : list (alloc * call))
    (t : thread) :
  tls_indicator t <> None ->
  map snd cs = map snd cs' ->
  run cs t = run cs' t /\
  snapshots cs t = snapshots cs' t /\
  (forall t', run cs t = Returned tt t' -> tls_indicator t' <> None).
Proof.
  revert cs' t. induction cs as [|[e c] cs IH]; intros cs' t Hs Hcalls.
  - destruct cs'; [|discriminate Hcalls].
    repeat split. intros t' Hrun. now injection Hrun as <-.
  - destruct cs' as [|[e' c'] cs']; [discriminate Hcalls|].
    cbn [map snd] in Hcalls. injection Hcalls as <- Hcalls.
    cbn [run snapshots]. unfold bind.
    rewrite (exec_with_state e e' c t Hs).
    destruct (exec e' c t) as [|v t1] eqn:Hrun.
    + repeat split. discriminate.
    + pose proof (exec_keeps_state e' c t v t1 Hs Hrun) as Hs1.
      destruct (IH cs' t1 Hs1 Hcalls) as [Hr [Hsn Hkeep]].
      rewrite Hr, Hsn. repeat split. rewrite <- Hr. exact Hkeep.
Qed.

Lemma allocator_irrelevant_with_state_witness :
  tls_indicator (mk_thread (Some (mk_indicator 0 2)) []) <> None /\
  map snd [(no_memory, Update_state); (no_thread_local, After_call)] =
    map snd [(all_ok, Update_state); (all_ok, After_call)] /\
  snapshots [(no_memory, Update_state); (no_thread_local, After_call)]
    (mk_thread (Some (mk_indicator 0 2)) []) =
  snapshots [(all_ok, Update_state); (all_ok, After_call)]
    (mk_thread (Some (mk_indicator 0 2)) []).
Proof.
  assert (tls_indicator (mk_thread (Some (mk_indicator 0 2)) []) <> None)
    as Hs by discriminate.
  split; [exact Hs|]. split; [reflexivity|].
  exact (proj1 (proj2 (allocator_irrelevant_with_state
                         [(no_memory, Update_state);
                          (no_thread_local, After_call)]
                         [(all_ok, Update_state); (all_ok, After_call)]
                         (mk_thread (Some (mk_indicator 0 2)) [])
                         Hs eq_refl))).
Defined.

Lemma err_queue_after_update e t :
  err_queue (after_update e t) =
  if store_available e t then err_queue t
  else err_queue t ++ [allocation_error e].
Proof.
  unfold after_update.
  destruct (store_available e t); [|reflexivity].
  destruct (lock_depth t =? 0); reflexivity.
Qed.

(** X7: what a call does to the error queue.  Digest-sign and
    digest-verify leave it empty.  Every other call leaves it as it was,
    except that a call which goes for the state of the thread and cannot
    have it appends one error, the allocation error.  No call raises any
    other error, and none removes a single entry. *)
Theorem error_queue_after_call (e : alloc) (c : call) (t t' : thread)
    (v : option Z) :
  exec e c t = Returned v t' ->
  err_queue t' =
  if clears_errors c then []
  else if reaches_store c && negb (store_available e t)
       then err_queue t ++ [allocation_error e]
       else err_queue t.
Proof.
  intros Hrun. unfold reaches_store. destruct (takes_no_update c) eqn:Hc.
  - cbn [orb]. destruct c; try discriminate Hc; cbn [clears_errors].
    + rewrite (exec_snapshot_run e Before_call t (or_introl eq_refl)) in Hrun.
      injection Hrun as _ <-. destruct (store_available e t); reflexivity.
    + rewrite (exec_snapshot_run e After_call t (or_intror eq_refl)) in Hrun.
      injection Hrun as _ <-. destruct (store_available e t); reflexivity.
    + cbn [exec] in Hrun. unfold no_value, bind in Hrun.
      rewrite lock_state_run in Hrun. destruct (store_available e t).
      * destruct (u64 (lock_depth t + 1) <? lock_depth t); [discriminate|].
        injection Hrun as _ <-. reflexivity.
      * injection Hrun as _ <-. reflexivity.
    + cbn [exec] in Hrun. unfold no_value, bind in Hrun.
      rewrite unlock_state_run in Hrun. destruct (store_available e t).
      * destruct (lock_depth t =? 0); [discriminate|].
        injection Hrun as _ <-. reflexivity.
      * injection Hrun as _ <-. reflexivity.
  - rewrite (exec_verify_run e c t Hc) in Hrun. injection Hrun as _ <-.
    cbv zeta. cbn [orb].
    destruct (clears_errors c); [reflexivity|].
    destruct (approves c); cbn [andb]; [|reflexivity].
    rewrite err_queue_after_update.
    destruct (store_available e t); reflexivity.
Qed.

Lemma error_queue_after_call_witness :
  exec no_memory (HMAC_verify sha256) fresh_thread =
    Returned None (mk_thread None [ERR ERR_LIB_CRYPTO ERR_R_MALLOC_FAILURE]) /\
  err_queue (mk_thread None [ERR ERR_LIB_CRYPTO ERR_R_MALLOC_FAILURE]) =
    [] ++ [allocation_error no_memory].
Proof.
  split; [reflexivity|].
  exact (error_queue_after_call no_memory (HMAC_verify sha256) fresh_thread
           (mk_thread None [ERR ERR_LIB_CRYPTO ERR_R_MALLOC_FAILURE]) None
           eq_refl).
Defined.

(** ** The verification functions as a family *)

(** X9: a verification function does at most one thing to the indicator:
    it leaves the thread as it is or it makes one call of the update
    primitive; digest-sign and digest-verify then empty the error queue.
    None of them aborts or returns a value. *)
Theorem verify_is_update_or_nothing (e : alloc) (c : call) (t : thread) :
  takes_no_update c = false ->
  exists t1,
    (t1 = t \/ FIPS_service_indicator_update_state e t = Returned tt t1) /\
    exec e c t = Returned None (if clears_errors c then cleared t1 else t1).
Proof.
  intros Hc. rewrite (exec_verify_run e c t Hc). cbv zeta.
  destruct (approves c).
  - exists (after_update e t). split; [|reflexivity].
    right. apply update_state_after.
  - exists t. split; [left|]; reflexivity.
Qed.

Lemma verify_is_update_or_nothing_witness :
  takes_no_update (EVP_Cipher_verify (mk_cipher_ctx NID_aes_192_cbc 24)) = false /\
  exists t1,
    (t1 = fresh_thread \/
     FIPS_service_indicator_update_state all_ok fresh_thread = Returned tt t1) /\
    exec all_ok (EVP_Cipher_verify (mk_cipher_ctx NID_aes_192_cbc 24))
      fresh_thread = Returned None t1.
Proof.
  split; [reflexivity|].
  exact (verify_is_update_or_nothing all_ok
           (EVP_Cipher_verify (mk_cipher_ctx NID_aes_192_cbc 24))
           fresh_thread eq_refl).
Defined.

(** ** The snapshot protocol around one operation *)

Lemma lt_u64_succ c :
  in_u64 c -> (c <? u64 (c + 1)) = negb (c =? UINT64_MAX).
Proof.
  intros Hc. rewrite (u64_succ c Hc). unfold in_u64 in Hc.
  destruct (c =? UINT64_MAX) eqn:E; cbn [negb].
  - apply Z.ltb_ge. lia.
  - apply Z.ltb_lt. lia.
Qed.

(** The thread a snapshot leaves behind. *)
Lemma after_snapshot_facts e e2 t :
  let t1 := if store_available e t
            then with_state (lock_depth t) (counter_of t) t
            else after_failed_get e t in
  counter_of t1 = counter_of t /\
  lock_depth t1 = lock_depth t /\
  store_available e2 t1 = store_available e t || store_available e2 t.
Proof.
  cbv zeta. destruct (store_available e t) eqn:Ha; cbn [orb];
    repeat split.
Qed.

(** X8: what the snapshot protocol reports for one operation.  Take the
    snapshot before a verification call (or a call of the update primitive)
    and the snapshot after it, in a well-formed thread: the second is
    greater than the first exactly if the rule of the call holds, the state
    of the thread can be had by then, the thread is unlocked, and the
    counter is not at 2^64 - 1.  The starting value of the counter plays no
    other part; at 2^64 - 1 an approved operation is reported as not
    approved. *)
Theorem bracket_detects_approval (e1 e2 e3 : alloc) (c : call) (t : thread) :
  well_formed t ->
  takes_no_update c = false ->
  exists t',
    bracketed (FIPS_service_indicator_before_call e1)
              (FIPS_service_indicator_after_call e3)
              (as_operation e2 c) t =
    Returned (approves c
              && (store_available e1 t || store_available e2 t)
              && (lock_depth t =? 0)
              && negb (counter_of t =? UINT64_MAX)) t'.
Proof.
  intros Hwf Hc. destruct (well_formed_bounds t Hwf) as [_ Hcnt].
  unfold bracketed, as_operation, FIPS_service_indicator_before_call,
    FIPS_service_indicator_after_call, bind.
  rewrite get_counter_run.
  destruct (after_snapshot_facts e1 e2 t) as [Hc1 [Hd1 Ha1]].
  cbv zeta in Hc1, Hd1, Ha1.
  set (t1 := if store_available e1 t
             then with_state (lock_depth t) (counter_of t) t
             else after_failed_get e1 t) in *.
  rewrite (exec_verify_run e2 c t1 Hc). cbv zeta. unfold ret at 1.
  rewrite get_counter_run. unfold ret. eexists. f_equal.
  assert (forall x, counter_of (if clears_errors c then cleared x else x)
                    = counter_of x) as Hclr
    by (intros x; destruct (clears_errors c); reflexivity).
  rewrite Hclr.
  destruct (approves c); cbn [andb].
  - rewrite counter_after_update, Ha1, Hd1, Hc1.
    destruct (store_available e1 t || store_available e2 t); cbn [andb];
      [|apply Z.ltb_irrefl].
    destruct (lock_depth t =? 0); cbn [andb]; [|apply Z.ltb_irrefl].
    exact (lt_u64_succ _ Hcnt).
  - rewrite Hc1. apply Z.ltb_irrefl.
Qed.

Lemma bracket_detects_approval_witness :
  well_formed (mk_thread (Some (mk_indicator 0 41)) []) /\
  takes_no_update (AEAD_GCM_verify (mk_aead_ctx (mk_aead 32) 16)) = false /\
  exists t',
    bracketed (FIPS_service_indicator_before_call all_ok)
              (FIPS_service_indicator_after_call all_ok)
              (as_operation all_ok
                 (AEAD_GCM_verify (mk_aead_ctx (mk_aead 32) 16)))
              (mk_thread (Some (mk_indicator 0 41)) []) =
    Returned true t'.
Proof.
  split; [vm_compute; intuition discriminate|]. split; [reflexivity|].
  exact (bracket_detects_approval all_ok all_ok all_ok
           (AEAD_GCM_verify (mk_aead_ctx (mk_aead 32) 16))
           (mk_thread (Some (mk_indicator 0 41)) [])
           (conj (conj (Zle_bool_imp_le 0 0 eq_refl)
                       (Zle_bool_imp_le 0 UINT64_MAX eq_refl))
                 (conj (Zle_bool_imp_le 0 41 eq_refl)
                       (Zle_bool_imp_le 41 UINT64_MAX eq_refl)))
           eq_refl).
Defined.

(** ** The lazily created state *)

(** X10: [service_indicator_get] creates the state at most once and never
    replaces it.  If a call hands out a state, that state is what the
    thread-local slot holds afterwards, and a second call, whatever the
    allocator does then, hands out the same state and changes nothing.  If
    a call hands out nothing, the slot is still empty and exactly one error
    has been appended to the queue. *)
Theorem service_indicator_get_lazy (e e' : alloc) (t t1 : thread)
    (r : option fips_service_indicator_state) :
  service_indicator_get e t = Returned r t1 ->
  match r with
  | Some i =>
      tls_indicator t1 = Some i /\
      err_queue t1 = err_queue t /\
      (tls_indicator t <> None -> t1 = t) /\
      (tls_indicator t = None -> i = mk_indicator STATE_UNLOCKED 0) /\
      service_indicator_get e' t1 = Returned (Some i) t1
  | None =>
      tls_indicator t = None /\
      tls_indicator t1 = None /\
      err_queue t1 = err_queue t ++ [allocation_error e]
  end.
Proof.
  rewrite service_indicator_get_run.
  destruct (store_available e t) eqn:Ha; intros Hrun;
    injection Hrun as <- <-.
  - split; [reflexivity|]. split; [reflexivity|].
    split; [apply with_state_same|].
    split.
    + intros Hn. unfold lock_depth, counter_of. now rewrite Hn.
    + rewrite service_indicator_get_run. reflexivity.
  - pose proof (unavailable_no_state e t Ha) as Hn.
    split; [exact Hn|]. split; [exact Hn | reflexivity].
Qed.

Lemma service_indicator_get_lazy_witness :
  service_indicator_get all_ok fresh_thread =
    Returned (Some (mk_indicator 0 0)) (mk_thread (Some (mk_indicator 0 0)) []) /\
  service_indicator_get no_memory (mk_thread (Some (mk_indicator 0 0)) []) =
    Returned (Some (mk_indicator 0 0)) (mk_thread (Some (mk_indicator 0 0)) []).
Proof.
  split; [reflexivity|].
  exact (proj2 (proj2 (proj2 (proj2
           (service_indicator_get_lazy all_ok no_memory fresh_thread
              (mk_thread (Some (mk_indicator 0 0)) [])
              (Some (mk_indicator 0 0)) eq_refl))))).
Defined.

(** ** The rules compared *)

Lemma one_of_In labels z : one_of labels z = true <-> In z labels.
Proof.
  unfold one_of. rewrite existsb_exists. split.
  - intros [x [Hin Heq]]. apply Z.eqb_eq in Heq. now subst x.
  - intros Hin. exists z. split; [exact Hin | apply Z.eqb_refl].
Qed.

Lemma one_of_not_In labels z : one_of labels z = false <-> ~ In z labels.
Proof.
  rewrite <- one_of_In. destruct (one_of labels z); split; congruence.
Qed.

Lemma c_true_flag (b : bool) : c_true (if b then 1 else 0) = b.
Proof. destruct b; reflexivity. Qed.

Lemma md_signing_verifying m :
  c_true (is_md_fips_approved_for_signing m) = true ->
  c_true (is_md_fips_approved_for_verifying m) = true.
Proof.
  unfold is_md_fips_approved_for_signing, is_md_fips_approved_for_verifying.
  rewrite !c_true_flag, !one_of_In. cbn [In]. tauto.
Qed.

Lemma md_verifying_signing m :
  c_true (is_md_fips_approved_for_verifying m) = true ->
  c_true (is_md_fips_approved_for_signing m) = true \/ m = NID_sha1.
Proof.
  unfold is_md_fips_approved_for_signing, is_md_fips_approved_for_verifying.
  rewrite !c_true_flag, !one_of_In. cbn [In]. intuition.
Qed.

Lemma rsa_parameters_ok_weaken ctx (md_ok md_ok' : Z -> Z) :
  (forall m, c_true (md_ok m) = true -> c_true (md_ok' m) = true) ->
  rsa_parameters_ok ctx md_ok = true ->
  rsa_parameters_ok ctx md_ok' = true.
Proof.
  intros Himp. unfold rsa_parameters_ok.
  destruct (EVP_MD_CTX_md ctx) as [md|]; [|discriminate].
  destruct (get_signature_md (pctx ctx)); [|discriminate].
  destruct (get_rsa_padding (pctx ctx)); [|discriminate].
  rewrite !andb_true_iff. intros [H1 H2]. split; [exact H1 | auto].
Qed.

Lemma signing_approved_verifying ctx :
  signature_approved ctx 0 is_md_fips_approved_for_signing = true ->
  signature_approved ctx 1 is_md_fips_approved_for_verifying = true.
Proof.
  unfold signature_approved.
  destruct (is_rsa_key (pkey (pctx ctx))).
  - rewrite rsa_modulus_ok_signing, rsa_modulus_ok_verifying.
    rewrite !andb_true_iff, !one_of_In. intros [Hp Hs]. split.
    + exact (rsa_parameters_ok_weaken ctx _ _ md_signing_verifying Hp).
    + cbn [In] in *. tauto.
  - destruct (EVP_PKEY_id (pkey (pctx ctx)) =? EVP_PKEY_EC); [|discriminate].
    unfold ec_parameters_ok.
    destruct (EVP_MD_CTX_md ctx) as [md|]; [|discriminate].
    rewrite !andb_true_iff. intros [Hm Hc].
    split; [now apply md_signing_verifying | exact Hc].
Qed.

(** What a digest-sign or digest-verify call that moved the counter
    says about its rule. *)
Lemma moved_then_approved e ctx rsa_1024_ok md_ok t t' :
  evp_md_ctx_verify_service_indicator e ctx rsa_1024_ok md_ok t =
    Returned tt t' ->
  counter_of t' <> counter_of t ->
  signature_approved ctx rsa_1024_ok md_ok = true /\
  t' = cleared (after_update e t).
Proof.
  rewrite evp_md_ctx_verify_run. intros Hrun Hmoved.
  injection Hrun as <-.
  destruct (signature_approved ctx rsa_1024_ok md_ok);
    [split; reflexivity|].
  now rewrite counter_of_cleared in Hmoved.
Qed.

(** X11: whatever the signing path counts, the verifying path counts.  If
    digest-sign moves the counter for a context, digest-verify does to the
    same thread exactly what digest-sign does. *)
Theorem signing_implies_verifying (e : alloc) (ctx : EVP_MD_CTX)
    (t t' : thread) :
  EVP_DigestSign_verify_service_indicator e ctx t = Returned tt t' ->
  counter_of t' <> counter_of t ->
  EVP_DigestVerify_verify_service_indicator e ctx t = Returned tt t'.
Proof.
  unfold EVP_DigestSign_verify_service_indicator,
    EVP_DigestVerify_verify_service_indicator.
  intros Hrun Hmoved.
  destruct (moved_then_approved e ctx _ _ t t' Hrun Hmoved) as [Ha ->].
  now rewrite evp_md_ctx_verify_run, (signing_approved_verifying ctx Ha).
Qed.

Lemma signing_implies_verifying_witness :
  EVP_DigestSign_verify_service_indicator all_ok (rsa_pkcs1_ctx sha256 384)
    fresh_thread = Returned tt (mk_thread (Some (mk_indicator 0 1)) []) /\
  EVP_DigestVerify_verify_service_indicator all_ok (rsa_pkcs1_ctx sha256 384)
    fresh_thread = Returned tt (mk_thread (Some (mk_indicator 0 1)) []).
Proof.
  split; [reflexivity|].
  apply (signing_implies_verifying all_ok (rsa_pkcs1_ctx sha256 384)
           fresh_thread (mk_thread (Some (mk_indicator 0 1)) []) eq_refl).
  discriminate.
Defined.

(** X12: a key the signing path counts is a key that key generation
    counts.  If digest-sign moves the counter for a context, then
    [EVP_PKEY_keygen_verify_service_indicator] applied to the key of that
    context calls the update primitive. *)
Theorem signing_implies_keygen (e e' : alloc) (ctx : EVP_MD_CTX)
    (t t' t0 : thread) :
  EVP_DigestSign_verify_service_indicator e ctx t = Returned tt t' ->
  counter_of t' <> counter_of t ->
  EVP_PKEY_keygen_verify_service_indicator e' (pkey (pctx ctx)) t0 =
  FIPS_service_indicator_update_state e' t0.
Proof.
  unfold EVP_DigestSign_verify_service_indicator. intros Hrun Hmoved.
  destruct (moved_then_approved e ctx _ _ t t' Hrun Hmoved) as [Ha _].
  unfold signature_approved in Ha.
  unfold EVP_PKEY_keygen_verify_service_indicator.
  unfold is_rsa_key, EVP_PKEY_id in Ha.
  destruct ((type (pkey (pctx ctx)) =? EVP_PKEY_RSA)
            || (type (pkey (pctx ctx)) =? EVP_PKEY_RSA_PSS)).
  - apply andb_true_iff in Ha as [_ Hs].
    rewrite rsa_modulus_ok_signing in Hs. now rewrite Hs.
  - destruct (type (pkey (pctx ctx)) =? EVP_PKEY_EC); [|discriminate].
    unfold ec_parameters_ok in Ha.
    destruct (EVP_MD_CTX_md ctx); [|discriminate].
    apply andb_true_iff in Ha as [_ Hc]. now rewrite Hc.
Qed.

Lemma signing_implies_keygen_witness :
  EVP_DigestSign_verify_service_indicator all_ok (rsa_pkcs1_ctx sha256 512)
    fresh_thread = Returned tt (mk_thread (Some (mk_indicator 0 1)) []) /\
  EVP_PKEY_keygen_verify_service_indicator all_ok (rsa_key 512)
    (mk_thread (Some (mk_indicator 0 8)) []) =
  FIPS_service_indicator_update_state all_ok
    (mk_thread (Some (mk_indicator 0 8)) []).
Proof.
  split; [reflexivity|].
  apply (signing_implies_keygen all_ok all_ok (rsa_pkcs1_ctx sha256 512)
           fresh_thread (mk_thread (Some (mk_indicator 0 1)) [])
           (mk_thread (Some (mk_indicator 0 8)) []) eq_refl).
  discriminate.
Defined.

Lemma ec_key_is_not_rsa k : type k = EVP_PKEY_EC -> is_rsa_key k = false.
Proof.
  intros H. unfold is_rsa_key, EVP_PKEY_id. now rewrite H.
Qed.

(** X13: the rule for EC keys.  For a context whose key is an EC key,
    digest-sign and digest-verify count exactly if a digest is bound, the
    digest passes the digest rule of the path, and the curve is P-224,
    P-256, P-384 or P-521.  The accessors of the RSA parameters are not
    consulted: their results, and whether 1024-bit RSA is allowed, do not
    change the outcome. *)
Theorem ec_signature_rule (e : alloc) (ctx : EVP_MD_CTX) (rsa_1024_ok : Z)
    (md_ok : Z -> Z) (t : thread) :
  type (pkey (pctx ctx)) = EVP_PKEY_EC ->
  evp_md_ctx_verify_service_indicator e ctx rsa_1024_ok md_ok t =
    Returned tt
      (cleared
         (if match EVP_MD_CTX_md ctx with
             | Some md =>
                 c_true (md_ok (EVP_MD_type md))
                 && one_of [NID_secp224r1; NID_X9_62_prime256v1;
                            NID_secp384r1; NID_secp521r1]
                      (EC_GROUP_get_curve_name
                         (group (pkey_ec (pkey (pctx ctx)))))
             | None => false
             end
          then after_update e t else t)) /\
  (forall sig pad salt mgf rsa_1024_ok',
     evp_md_ctx_verify_service_indicator e
       (with_accessors sig pad salt mgf ctx) rsa_1024_ok' md_ok t =
     evp_md_ctx_verify_service_indicator e ctx rsa_1024_ok md_ok t).
Proof.
  intros Hec.
  assert (forall ctx' r,
            type (pkey (pctx ctx')) = EVP_PKEY_EC ->
            signature_approved ctx' r md_ok = ec_parameters_ok ctx' md_ok)
    as Hrule.
  { intros ctx' r H. unfold signature_approved.
    rewrite (ec_key_is_not_rsa _ H). unfold EVP_PKEY_id. now rewrite H. }
  split.
  - rewrite evp_md_ctx_verify_run, (Hrule ctx rsa_1024_ok Hec).
    unfold ec_parameters_ok, is_ec_fips_approved.
    now rewrite c_true_flag.
  - intros sig pad salt mgf r'.
    rewrite !evp_md_ctx_verify_run, (Hrule ctx rsa_1024_ok Hec).
    rewrite (Hrule (with_accessors sig pad salt mgf ctx) r' Hec).
    reflexivity.
Qed.

Lemma ec_signature_rule_witness :
  type (pkey (pctx
    (mk_md_ctx (Some sha256)
       (mk_pkey_ctx
          (mk_pkey EVP_PKEY_EC (mk_ec_key (mk_group NID_secp384r1)) 104)
          (Failed []) (Failed []) (Failed []) (Failed []))))) = EVP_PKEY_EC /\
  EVP_DigestSign_verify_service_indicator all_ok
    (mk_md_ctx (Some sha256)
       (mk_pkey_ctx
          (mk_pkey EVP_PKEY_EC (mk_ec_key (mk_group NID_secp384r1)) 104)
          (Failed []) (Failed []) (Failed []) (Failed [])))
    fresh_thread = Returned tt (mk_thread (Some (mk_indicator 0 1)) []).
Proof.
  split; [reflexivity|].
  exact (proj1 (ec_signature_rule all_ok
                  (mk_md_ctx (Some sha256)
                     (mk_pkey_ctx
                        (mk_pkey EVP_PKEY_EC
                           (mk_ec_key (mk_group NID_secp384r1)) 104)
                        (Failed []) (Failed []) (Failed []) (Failed [])))
                  0 is_md_fips_approved_for_signing fresh_thread eq_refl)).
Defined.

(** X14: a key that is neither an RSA, an RSA-PSS nor an EC key is never
    counted: digest-sign and digest-verify only empty the error queue, and
    the key-generation function does nothing. *)
Theorem other_key_types_never_approved (e : alloc) (ctx : EVP_MD_CTX)
    (rsa_1024_ok : Z) (md_ok : Z -> Z) (t : thread) :
  type (pkey (pctx ctx)) <> EVP_PKEY_RSA ->
  type (pkey (pctx ctx)) <> EVP_PKEY_RSA_PSS ->
  type (pkey (pctx ctx)) <> EVP_PKEY_EC ->
  evp_md_ctx_verify_service_indicator e ctx rsa_1024_ok md_ok t =
    Returned tt (mk_thread (tls_indicator t) []) /\
  EVP_PKEY_keygen_verify_service_indicator e (pkey (pctx ctx)) t =
    Returned tt t.
Proof.
  intros H1 H2 H3. apply Z.eqb_neq in H1, H2, H3. split.
  - apply not_approved_cleared. unfold signature_approved, is_rsa_key,
      EVP_PKEY_id. now rewrite H1, H2, H3.
  - unfold EVP_PKEY_keygen_verify_service_indicator. now rewrite H1, H2, H3.
Qed.

Lemma other_key_types_never_approved_witness :
  EVP_DigestVerify_verify_service_indicator all_ok
    (mk_md_ctx (Some sha256)
       (mk_pkey_ctx (mk_pkey 949 no_ec_key 64)
          (Fetched sha256) (Fetched RSA_PKCS1_PADDING) (Failed []) (Failed [])))
    fresh_thread = Returned tt fresh_thread.
Proof.
  refine (proj1 (other_key_types_never_approved all_ok
                   (mk_md_ctx (Some sha256)
                      (mk_pkey_ctx (mk_pkey 949 no_ec_key 64)
                         (Fetched sha256) (Fetched RSA_PKCS1_PADDING)
                         (Failed []) (Failed [])))
                   1 is_md_fips_approved_for_verifying fresh_thread _ _ _));
    discriminate.
Defined.

(** X15: one curve rule, three functions.  EC key generation, ECDH and the
    key-generation function applied to an EC key do the same thing to the
    thread: they call the update primitive if the curve is P-224, P-256,
    P-384 or P-521 and do nothing for any other curve. *)
Theorem ec_key_rules_agree (e : alloc) (k : EC_KEY) (pk : EVP_PKEY)
    (t : thread) :
  ECDH_verify_service_indicator e k t =
    EC_KEY_keygen_verify_service_indicator e k t /\
  (type pk = EVP_PKEY_EC ->
   EVP_PKEY_keygen_verify_service_indicator e pk t =
     EC_KEY_keygen_verify_service_indicator e (pkey_ec pk) t) /\
  (In (EC_GROUP_get_curve_name (group k))
      [NID_secp224r1; NID_X9_62_prime256v1; NID_secp384r1; NID_secp521r1] ->
   EC_KEY_keygen_verify_service_indicator e k t =
     FIPS_service_indicator_update_state e t) /\
  (~ In (EC_GROUP_get_curve_name (group k))
        [NID_secp224r1; NID_X9_62_prime256v1; NID_secp384r1; NID_secp521r1] ->
   EC_KEY_keygen_verify_service_indicator e k t = Returned tt t).
Proof.
  split; [reflexivity|]. split; [|split].
  - intros Hec. unfold EVP_PKEY_keygen_verify_service_indicator,
      EC_KEY_keygen_verify_service_indicator. now rewrite Hec.
  - intros Hin. apply one_of_In in Hin.
    unfold EC_KEY_keygen_verify_service_indicator, is_ec_fips_approved.
    now rewrite Hin.
  - intros Hout. apply one_of_not_In in Hout.
    unfold EC_KEY_keygen_verify_service_indicator, is_ec_fips_approved.
    now rewrite Hout.
Qed.

Lemma ec_key_rules_agree_witness :
  EVP_PKEY_keygen_verify_service_indicator all_ok
    (mk_pkey EVP_PKEY_EC (mk_ec_key (mk_group NID_secp256k1)) 72)
    fresh_thread = Returned tt fresh_thread.
Proof.
  destruct (ec_key_rules_agree all_ok (mk_ec_key (mk_group NID_secp256k1))
              (mk_pkey EVP_PKEY_EC (mk_ec_key (mk_group NID_secp256k1)) 72)
              fresh_thread) as [_ [Hpk [_ Hout]]].
  rewrite (Hpk eq_refl). apply Hout.
  cbn [In]. intros [H|[H|[H|[H|H]]]]; try discriminate H; exact H.
Defined.

(** X16: the two digest rules.  Each returns 1 or 0; the signing rule
    holds for sha224, sha256, sha384 and sha512 and nothing else, the
    verifying rule for these and sha1 and nothing else; so every digest
    approved for signing is approved for verifying, and sha1 is the one
    digest approved for verifying only. *)
Theorem digest_rules_compared (md_type : Z) :
  (is_md_fips_approved_for_signing md_type = 1 \/
   is_md_fips_approved_for_signing md_type = 0) /\
  (is_md_fips_approved_for_verifying md_type = 1 \/
   is_md_fips_approved_for_verifying md_type = 0) /\
  (is_md_fips_approved_for_signing md_type = 1 <->
   In md_type [NID_sha224; NID_sha256; NID_sha384; NID_sha512]) /\
  (is_md_fips_approved_for_verifying md_type = 1 <->
   In md_type [NID_sha1; NID_sha224; NID_sha256; NID_sha384; NID_sha512]) /\
  (is_md_fips_approved_for_verifying md_type = 1 <->
   is_md_fips_approved_for_signing md_type = 1 \/ md_type = NID_sha1).
Proof.
  assert (forall b : bool, (if b then 1 else 0) = 1 <-> b = true) as Hflag
    by (intros [|]; split; congruence).
  unfold is_md_fips_approved_for_signing, is_md_fips_approved_for_verifying.
  split; [|split; [|split; [|split]]].
  - destruct (one_of [NID_sha224; NID_sha256; NID_sha384; NID_sha512] md_type);
      [left | right]; reflexivity.
  - destruct (one_of [NID_sha1; NID_sha224; NID_sha256; NID_sha384; NID_sha512]
                md_type); [left | right]; reflexivity.
  - now rewrite Hflag, one_of_In.
  - now rewrite Hflag, one_of_In.
  - rewrite !Hflag, !one_of_In. cbn [In]. intuition.
Qed.

(** X17: the digests of HMAC and of the TLS KDF.  HMAC counts exactly the
    digests the verifying rule approves.  The TLS KDF does what HMAC does
    for every digest but three: it counts md5 and md5-sha1, which HMAC does
    not, and it does not count sha224, which HMAC does. *)
Theorem hmac_and_tlskdf_digests (e : alloc) (md : EVP_MD) (t : thread) :
  HMAC_verify_service_indicator e md t =
    (if c_true (is_md_fips_approved_for_verifying (EVP_MD_type md))
     then FIPS_service_indicator_update_state e t
     else Returned tt t) /\
  (~ In (EVP_MD_type md) [NID_md5; NID_md5_sha1; NID_sha224] ->
   TLSKDF_verify_service_indicator e md t =
     HMAC_verify_service_indicator e md t) /\
  (In (EVP_MD_type md) [NID_md5; NID_md5_sha1] ->
   TLSKDF_verify_service_indicator e md t =
     FIPS_service_indicator_update_state e t /\
   HMAC_verify_service_indicator e md t = Returned tt t) /\
  (EVP_MD_type md = NID_sha224 ->
   HMAC_verify_service_indicator e md t =
     FIPS_service_indicator_update_state e t /\
   TLSKDF_verify_service_indicator e md t = Returned tt t).
Proof.
  unfold HMAC_verify_service_indicator, TLSKDF_verify_service_indicator,
    is_md_fips_approved_for_verifying.
  rewrite c_true_flag.
  split; [|split; [|split]].
  - destruct (one_of [NID_sha1; NID_sha224; NID_sha256; NID_sha384; NID_sha512]
                (EVP_MD_type md)); reflexivity.
  - intros Hout. cbn [In] in Hout.
    unfold one_of, existsb.
    assert ((EVP_MD_type md =? NID_md5) = false) as ->
      by (apply Z.eqb_neq; intros E; apply Hout; rewrite E; auto).
    assert ((EVP_MD_type md =? NID_md5_sha1) = false) as ->
      by (apply Z.eqb_neq; intros E; apply Hout; rewrite E; auto).
    assert ((EVP_MD_type md =? NID_sha224) = false) as ->
      by (apply Z.eqb_neq; intros E; apply Hout; rewrite E; auto).
    cbn [orb]. reflexivity.
  - intros [<- | [<- | []]]; split; reflexivity.
  - intros ->. split; reflexivity.
Qed.

Lemma hmac_and_tlskdf_digests_witness :
  TLSKDF_verify_service_indicator all_ok sha1 fresh_thread =
  HMAC_verify_service_indicator all_ok sha1 fresh_thread.
Proof.
  apply (proj1 (proj2 (hmac_and_tlskdf_digests all_ok sha1 fresh_thread))).
  cbn [In]. intros [H|[H|[H|H]]]; try discriminate H; exact H.
Defined.

(** X18: the key lengths of AES-GCM and AES-CMAC.  Both call the update
    primitive for a key of 16 or 32 bytes and leave the thread alone for
    every other length, 24 bytes included; and whatever AES-CCM does to a
    thread other than nothing, AES-GCM does for the same context. *)
Theorem aead_key_rules (e : alloc) (ctx : EVP_AEAD_CTX) (cmac : CMAC_CTX)
    (t : thread) :
  (EVP_AEAD_key_length (aead ctx) = 16 \/ EVP_AEAD_key_length (aead ctx) = 32 ->
   AEAD_GCM_verify_service_indicator e ctx t =
     FIPS_service_indicator_update_state e t) /\
  (EVP_AEAD_key_length (aead ctx) <> 16 ->
   EVP_AEAD_key_length (aead ctx) <> 32 ->
   AEAD_GCM_verify_service_indicator e ctx t = Returned tt t) /\
  (key_len (cipher_ctx cmac) = 16 \/ key_len (cipher_ctx cmac) = 32 ->
   AES_CMAC_verify_service_indicator e cmac t =
     FIPS_service_indicator_update_state e t) /\
  (key_len (cipher_ctx cmac) <> 16 ->
   key_len (cipher_ctx cmac) <> 32 ->
   AES_CMAC_verify_service_indicator e cmac t = Returned tt t) /\
  (AEAD_CCM_verify_service_indicator e ctx t <> Returned tt t ->
   AEAD_GCM_verify_service_indicator e ctx t =
     AEAD_CCM_verify_service_indicator e ctx t).
Proof.
  unfold AEAD_GCM_verify_service_indicator, AES_CMAC_verify_service_indicator,
    AEAD_CCM_verify_service_indicator.
  repeat split.
  - intros [-> | ->]; reflexivity.
  - intros H1 H2. apply Z.eqb_neq in H1, H2. now rewrite H1, H2.
  - intros [-> | ->]; reflexivity.
  - intros H1 H2. apply Z.eqb_neq in H1, H2. now rewrite H1, H2.
  - destruct (EVP_AEAD_key_length (aead ctx) =? 16); cbn [andb orb];
      [|intros H; now contradiction H].
    destruct (tag_len ctx =? 4); [reflexivity|].
    intros H; now contradiction H.
Qed.

Lemma aead_key_rules_witness :
  AEAD_GCM_verify_service_indicator all_ok (mk_aead_ctx (mk_aead 24) 16)
    fresh_thread = Returned tt fresh_thread /\
  AES_CMAC_verify_service_indicator all_ok
    (mk_cmac_ctx (mk_cipher_ctx NID_aes_256_cbc 32)) fresh_thread =
  FIPS_service_indicator_update_state all_ok fresh_thread.
Proof.
  destruct (aead_key_rules all_ok (mk_aead_ctx (mk_aead 24) 16)
              (mk_cmac_ctx (mk_cipher_ctx NID_aes_256_cbc 32)) fresh_thread)
    as [_ [Hgcm [Hcmac _]]].
  split.
  - apply Hgcm; discriminate.
  - apply Hcmac. right. reflexivity.
Defined.

Lemma size_t_of_int_eq z c :
  in_int z -> 0 <= c < 2 ^ 31 -> (size_t_of_int z =? c) = (z =? c).
Proof.
  unfold in_int, size_t_of_int, u64. intros Hz Hc.
  destruct (Z.ltb_spec z 0).
  - assert (z mod 2 ^ 64 = z + 2 ^ 64) as ->.
    { symmetry. apply (Z.mod_unique_pos _ _ (-1)); lia. }
    transitivity false; [apply Z.eqb_neq | symmetry; apply Z.eqb_neq]; lia.
  - now rewrite Z.mod_small by lia.
Qed.

(** X19: the size of an RSA key is an [int] compared as a [size_t]; the
    conversion makes no other size look like an approved one.  For an RSA
    or RSA-PSS key whose size is an [int], key generation calls the update
    primitive exactly if the size is 256, 384 or 512; a size of 0 or below
    (as an error return of [EVP_PKEY_size]) is counted neither by key
    generation nor by digest-sign or digest-verify. *)
Theorem rsa_key_size_as_int (e : alloc) (ctx : EVP_MD_CTX) (rsa_1024_ok : Z)
    (md_ok : Z -> Z) (t : thread) :
  is_rsa_key (pkey (pctx ctx)) = true ->
  in_int (EVP_PKEY_size (pkey (pctx ctx))) ->
  EVP_PKEY_keygen_verify_service_indicator e (pkey (pctx ctx)) t =
    (if one_of [256; 384; 512] (EVP_PKEY_size (pkey (pctx ctx)))
     then FIPS_service_indicator_update_state e t
     else Returned tt t) /\
  (EVP_PKEY_size (pkey (pctx ctx)) <= 0 ->
   EVP_PKEY_keygen_verify_service_indicator e (pkey (pctx ctx)) t =
     Returned tt t /\
   evp_md_ctx_verify_service_indicator e ctx rsa_1024_ok md_ok t =
     Returned tt (mk_thread (tls_indicator t) [])).
Proof.
  intros Hrsa Hint.
  assert (forall c, 0 <= c < 2 ^ 31 ->
            (size_t_of_int (EVP_PKEY_size (pkey (pctx ctx))) =? c)
            = (EVP_PKEY_size (pkey (pctx ctx)) =? c)) as Hconv
    by (intros c Hc; now apply size_t_of_int_eq).
  assert (EVP_PKEY_keygen_verify_service_indicator e (pkey (pctx ctx)) t =
          (if one_of [256; 384; 512] (EVP_PKEY_size (pkey (pctx ctx)))
           then FIPS_service_indicator_update_state e t
           else Returned tt t)) as Hgen.
  { unfold EVP_PKEY_keygen_verify_service_indicator.
    unfold is_rsa_key, EVP_PKEY_id in Hrsa. rewrite Hrsa.
    unfold one_of, existsb. rewrite !Hconv by lia.
    match goal with
    | |- context [if ?b then _ else _] => destruct b
    end; reflexivity. }
  split; [exact Hgen|].
  intros Hle.
  assert (forall c, 0 < c ->
            (EVP_PKEY_size (pkey (pctx ctx)) =? c) = false) as Hno
    by (intros c Hc; apply Z.eqb_neq; lia).
  split.
  - rewrite Hgen. unfold one_of, existsb. now rewrite !Hno by lia.
  - apply not_approved_cleared. unfold signature_approved. rewrite Hrsa.
    unfold rsa_modulus_ok, one_of, existsb.
    rewrite !Hconv by lia. rewrite !Hno by lia.
    now rewrite !andb_false_r.
Qed.

Lemma rsa_key_size_as_int_witness :
  is_rsa_key (pkey (pctx (rsa_pkcs1_ctx sha256 (-1)))) = true /\
  in_int (EVP_PKEY_size (pkey (pctx (rsa_pkcs1_ctx sha256 (-1))))) /\
  EVP_PKEY_keygen_verify_service_indicator all_ok
    (pkey (pctx (rsa_pkcs1_ctx sha256 (-1)))) fresh_thread =
  Returned tt fresh_thread.
Proof.
  split; [reflexivity|].
  split; [split; [discriminate | reflexivity]|].
  refine (proj1 (proj2 (rsa_key_size_as_int all_ok
                          (rsa_pkcs1_ctx sha256 (-1)) 0
                          is_md_fips_approved_for_signing fresh_thread
                          eq_refl _) _)).
  - split; [discriminate | reflexivity].
  - discriminate.
Defined.

(** ** The 384-bit nonzero test: memory *)

Lemma u64_idem z : u64 (u64 z) = u64 z.
Proof. unfold u64. apply Z.mod_mod. lia. Qed.

Lemma u64_add_l z1 z2 : u64 (u64 z1 + z2) = u64 (z1 + z2).
Proof. unfold u64. apply Zplus_mod_idemp_l. Qed.

Lemma byte_at_u64 m p : X86.byte_at m (u64 p) = X86.byte_at m p.
Proof. unfold X86.byte_at. now rewrite u64_idem. Qed.

Lemma byte_at_range m p : 0 <= X86.byte_at m p < 256.
Proof. unfold X86.byte_at. apply Z.mod_pos_bound. lia. Qed.

(** Loading wraps around with the addresses. *)
Lemma load_bytes_u64 n m :
  forall p, X86.load_bytes n m (u64 p) = X86.load_bytes n m p.
Proof.
  induction n as [|n IH]; intros p; [reflexivity|].
  cbn [X86.load_bytes]. rewrite byte_at_u64. f_equal. f_equal.
  rewrite <- (IH (u64 p + 1)), <- (IH (p + 1)). now rewrite u64_add_l.
Qed.

Lemma load_bytes_range n m :
  forall p, 0 <= X86.load_bytes n m p < 2 ^ (8 * Z.of_nat n).
Proof.
  induction n as [|n IH]; intros p.
  - cbn. lia.
  - cbn [X86.load_bytes].
    replace (8 * Z.of_nat (S n)) with (8 + 8 * Z.of_nat n) by lia.
    rewrite Z.pow_add_r by lia. change (2 ^ 8) with 256.
    pose proof (byte_at_range m p). pose proof (IH (p + 1)). nia.
Qed.

(** The bytes of a number are the bytes of its low part, then those of
    its high part. *)
Lemma load_bytes_app n k m :
  forall p,
    X86.load_bytes (n + k) m p =
    X86.load_bytes n m p
    + 2 ^ (8 * Z.of_nat n) * X86.load_bytes k m (p + Z.of_nat n).
Proof.
  induction n as [|n IH]; intros p.
  - cbn [Nat.add X86.load_bytes]. change (2 ^ (8 * Z.of_nat 0)) with 1.
    rewrite Z.add_0_r. lia.
  - cbn [Nat.add X86.load_bytes]. rewrite IH.
    replace (8 * Z.of_nat (S n)) with (8 + 8 * Z.of_nat n) by lia.
    rewrite Z.pow_add_r by lia. change (2 ^ 8) with 256.
    replace (p + 1 + Z.of_nat n) with (p + Z.of_nat (S n)) by lia.
    ring.
Qed.

Lemma load64_range m p : 0 <= X86.load64 m p < 2 ^ 64.
Proof. exact (load_bytes_range 8 m p). Qed.

(** The first word of a number of [8 + k] bytes and the rest. *)
Lemma load_bytes_word k m p :
  X86.load_bytes (8 + k) m p =
  X86.load64 m (u64 (p + 0)) + 2 ^ 64 * X86.load_bytes k m (p + 8).
Proof.
  rewrite (load_bytes_app 8 k m p). unfold X86.load64.
  now rewrite load_bytes_u64, Z.add_0_r.
Qed.

(** The 384-bit number is made of the six words the routine loads. *)
Lemma bignum_6_words m p :
  X86.bignum_6 m p =
  X86.load64 m (u64 (p + 0))
  + 2 ^ 64 * (X86.load64 m (u64 (p + 8))
  + 2 ^ 64 * (X86.load64 m (u64 (p + 16))
  + 2 ^ 64 * (X86.load64 m (u64 (p + 24))
  + 2 ^ 64 * (X86.load64 m (u64 (p + 32))
  + 2 ^ 64 * X86.load64 m (u64 (p + 40)))))).
Proof.
  unfold X86.bignum_6.
  change 48%nat with (8 + (8 + (8 + (8 + (8 + (8 + 0))))))%nat.
  rewrite !load_bytes_word. cbn [X86.load_bytes].
  replace (p + 8 + 0) with (p + 8) by lia.
  replace (p + 8 + 8 + 0) with (p + 16) by lia.
  replace (p + 8 + 8 + 8 + 0) with (p + 24) by lia.
  replace (p + 8 + 8 + 8 + 8 + 0) with (p + 32) by lia.
  replace (p + 8 + 8 + 8 + 8 + 8 + 0) with (p + 40) by lia.
  ring.
Qed.

(** The OR of the words is zero exactly where the number is. *)
Lemma or_of_words_zero m p :
  (Z.lor
     (Z.lor (Z.lor (X86.load64 m (u64 (p + 0))) (X86.load64 m (u64 (p + 16))))
            (X86.load64 m (u64 (p + 32))))
     (Z.lor (Z.lor (X86.load64 m (u64 (p + 8))) (X86.load64 m (u64 (p + 24))))
            (X86.load64 m (u64 (p + 40)))) =? 0)
  = (X86.bignum_6 m p =? 0).
Proof.
  rewrite bignum_6_words.
  pose proof (load64_range m (u64 (p + 0))).
  pose proof (load64_range m (u64 (p + 8))).
  pose proof (load64_range m (u64 (p + 16))).
  pose proof (load64_range m (u64 (p + 24))).
  pose proof (load64_range m (u64 (p + 32))).
  pose proof (load64_range m (u64 (p + 40))).
  match goal with
  | |- (?l =? 0) = (?r =? 0) =>
      destruct (Z.eqb_spec l 0) as [Hl | Hl];
      destruct (Z.eqb_spec r 0) as [Hr | Hr]; try reflexivity; exfalso
  end.
  - rewrite !Z.lor_eq_0_iff in Hl. apply Hr.
    destruct Hl as [[[-> ->] ->] [[-> ->] ->]]. reflexivity.
  - apply Hl. rewrite !Z.lor_eq_0_iff.
    assert (X86.load64 m (u64 (p + 0)) = 0) by nia.
    assert (X86.load64 m (u64 (p + 8)) = 0) by nia.
    assert (X86.load64 m (u64 (p + 16)) = 0) by nia.
    assert (X86.load64 m (u64 (p + 24)) = 0) by nia.
    assert (X86.load64 m (u64 (p + 32)) = 0) by nia.
    assert (X86.load64 m (u64 (p + 40)) = 0) by nia.
    tauto.
Qed.

(** ** The 384-bit nonzero test: the routine *)

Ltac run_routine :=
  cbv [X86.run X86.bignum_nonzero_6 app fold_left X86.step X86.x X86.a X86.d
       X86.read_operand X86.set_reg X86.set_flags X86.set_mem X86.regs X86.mem
       X86.eflags X86.reg_eqb X86.logic_flags X86.ZF].

(** X20: [bignum_nonzero_6] under the standard ABI.  Called with RDI
    pointing to six 64-bit words, the routine returns with RAX = 1 if the
    384-bit number they hold is not zero and RAX = 0 if it is.  It writes
    nothing to memory, leaves RDI, RSI and RCX as they were, and returns
    with the return address popped off the stack. *)
Theorem bignum_nonzero_6_standard (s : X86.machine) :
  X86.regs (X86.run (X86.bignum_nonzero_6 false) s) X86.RAX =
    (if X86.bignum_6 (X86.mem s) (X86.regs s X86.RDI) =? 0 then 0 else 1) /\
  X86.mem (X86.run (X86.bignum_nonzero_6 false) s) = X86.mem s /\
  X86.regs (X86.run (X86.bignum_nonzero_6 false) s) X86.RDI =
    X86.regs s X86.RDI /\
  X86.regs (X86.run (X86.bignum_nonzero_6 false) s) X86.RSI =
    X86.regs s X86.RSI /\
  X86.regs (X86.run (X86.bignum_nonzero_6 false) s) X86.RCX =
    X86.regs s X86.RCX /\
  X86.regs (X86.run (X86.bignum_nonzero_6 false) s) X86.RSP =
    u64 (X86.regs s X86.RSP + 8).
Proof.
  destruct s as [rg m f].
  change (X86.mem (X86.mk_machine rg m f)) with m.
  change (X86.regs (X86.mk_machine rg m f)) with rg.
  rewrite <- (or_of_words_zero m (rg X86.RDI)).
  run_routine.
  match goal with
  | |- context [?r =? 0] => destruct (Z.eqb_spec r 0) as [Hz | Hnz]
  end; repeat split. exact Hz.
Qed.

(** The number 2^383, held by the last byte alone, is not zero; the number
    whose 48 bytes are all 0 is. *)
Example bignum_nonzero_6_scenario :
  X86.regs
    (X86.run (X86.bignum_nonzero_6 false)
       (X86.machine_of 4096 0 65536
          (X86.memory_of 4096 (repeat 0 47 ++ [128])))) X86.RAX = 1 /\
  X86.regs
    (X86.run (X86.bignum_nonzero_6 false)
       (X86.machine_of 4096 0 65536 (X86.memory_of 4096 (repeat 0 48))))
    X86.RAX = 0.
Proof. split; vm_compute; reflexivity. Qed.

(** ** The 384-bit nonzero test: the stack of the Windows ABI *)

Lemma u64_offset p j : 0 <= j < 2 ^ 64 -> u64 (u64 (p + j) - p) = j.
Proof.
  intros Hj. unfold u64. rewrite Zminus_mod_idemp_l.
  replace (p + j - p) with j by lia. now apply Z.mod_small.
Qed.

Lemma u64_add_sub p q : u64 (p + u64 (q - p)) = u64 q.
Proof.
  unfold u64. rewrite Zplus_mod_idemp_r. f_equal. lia.
Qed.

Lemma byte_at_store64 m p v q :
  X86.byte_at (X86.store64 m p v) q =
  if u64 (u64 q - p) <? 8
  then (v / 2 ^ (8 * u64 (u64 q - p))) mod 256
  else X86.byte_at m q.
Proof.
  unfold X86.byte_at, X86.store64. cbv zeta.
  destruct (u64 (u64 q - p) <? 8); [|reflexivity].
  apply Z.mod_mod. lia.
Qed.

(** Round trip: the bytes a store wrote are the bytes of the value. *)
Lemma load_bytes_store64_same n m p v :
  forall j,
    0 <= j -> j + Z.of_nat n <= 8 ->
    X86.load_bytes n (X86.store64 m p v) (p + j) =
    (v / 2 ^ (8 * j)) mod 2 ^ (8 * Z.of_nat n).
Proof.
  induction n as [|n IH]; intros j Hj Hn.
  - cbn [X86.load_bytes]. change (2 ^ (8 * Z.of_nat 0)) with 1.
    now rewrite Z.mod_1_r.
  - cbn [X86.load_bytes].
    rewrite byte_at_store64, (u64_offset p j) by lia.
    assert ((j <? 8) = true) as -> by (apply Z.ltb_lt; lia).
    replace (p + j + 1) with (p + (j + 1)) by lia.
    rewrite (IH (j + 1)) by lia.
    replace (8 * (j + 1)) with (8 * j + 8) by lia.
    rewrite Z.pow_add_r by lia. change (2 ^ 8) with 256.
    rewrite <- Z.div_div by lia.
    replace (8 * Z.of_nat (S n)) with (8 + 8 * Z.of_nat n) by lia.
    rewrite (Z.pow_add_r 2 8) by lia. change (2 ^ 8) with 256.
    symmetry. apply Z.rem_mul_r; [lia|].
    apply Z.pow_pos_nonneg; lia.
Qed.

Lemma load64_store64_same m p v :
  in_u64 v -> X86.load64 (X86.store64 m p v) p = v.
Proof.
  intros Hv. unfold X86.load64.
  rewrite <- (Z.add_0_r p) at 2.
  rewrite (load_bytes_store64_same 8 m p v 0) by lia.
  change (2 ^ (8 * 0)) with 1. rewrite Z.div_1_r.
  apply Z.mod_small. unfold in_u64, UINT64_MAX in Hv.
  change (2 ^ (8 * Z.of_nat 8)) with (2 ^ 64). lia.
Qed.

(** A store does not show in bytes it did not write. *)
Lemma load_bytes_store64_other n m p v :
  forall q,
    (forall j, 0 <= j < Z.of_nat n -> 8 <= u64 (u64 (q + j) - p)) ->
    X86.load_bytes n (X86.store64 m p v) q = X86.load_bytes n m q.
Proof.
  induction n as [|n IH]; intros q Hfar; [reflexivity|].
  cbn [X86.load_bytes]. rewrite byte_at_store64.
  assert ((u64 (u64 q - p) <? 8) = false) as ->.
  { apply Z.ltb_ge. specialize (Hfar 0 ltac:(lia)).
    now rewrite Z.add_0_r in Hfar. }
  rewrite IH; [reflexivity|].
  intros j Hj. specialize (Hfar (j + 1) ltac:(lia)).
  now replace (q + 1 + j) with (q + (j + 1)) by lia.
Qed.

(** Bytes apart stay apart when told by their distance. *)
Lemma disjoint_far p n q k j :
  X86.disjoint p n q k ->
  8 <= n -> 0 <= j < k ->
  forall base, 0 <= base -> base + 8 <= n ->
  8 <= u64 (u64 (q + j) - u64 (p + base)).
Proof.
  intros Hdis Hn Hj base Hb0 Hb.
  destruct (Z.lt_ge_cases (u64 (u64 (q + j) - u64 (p + base))) 8) as [Hlt|];
    [exfalso|assumption].
  pose proof (u64_range (u64 (q + j) - u64 (p + base))) as Hr.
  unfold in_u64 in Hr.
  apply (Hdis (base + u64 (u64 (q + j) - u64 (p + base))) j); [lia | lia |].
  set (off := u64 (u64 (q + j) - u64 (p + base))).
  transitivity (u64 (u64 (p + base) + off)).
  - rewrite u64_add_l. f_equal. lia.
  - unfold off. rewrite u64_add_sub. apply u64_idem.
Qed.

Lemma u64_sub_8 z : u64 (u64 z - 8) = u64 (z - 8).
Proof.
  replace (u64 z - 8) with (u64 z + (-8)) by lia.
  rewrite u64_add_l. reflexivity.
Qed.

(** The memory after the two pushes of the Windows prologue, seen from the
    rest of the routine. *)
Lemma windows_stack m rsp rdi rsi rcx :
  in_u64 rdi -> in_u64 rsi ->
  X86.disjoint (rsp - 16) 16 rcx 48 ->
  let sp1 := u64 (rsp - 8) in
  let sp2 := u64 (sp1 - 8) in
  let m2 := X86.store64 (X86.store64 m sp1 rdi) sp2 rsi in
  X86.bignum_6 m2 rcx = X86.bignum_6 m rcx /\
  X86.load64 m2 sp2 = rsi /\
  X86.load64 m2 (u64 (sp2 + 8)) = rdi /\
  u64 (u64 (u64 (sp2 + 8) + 8) + 8) = u64 (rsp + 8) /\
  (forall q,
     (forall i, 0 <= i < 16 -> u64 q <> u64 (rsp - 16 + i)) ->
     X86.byte_at m2 q = X86.byte_at m q).
Proof.
  intros Hrdi Hrsi Hdis. cbv zeta.
  assert (u64 (rsp - 8) = u64 (rsp - 16 + 8)) as E1 by (f_equal; lia).
  assert (u64 (u64 (rsp - 8) - 8) = u64 (rsp - 16 + 0)) as E2
    by (rewrite u64_sub_8; f_equal; lia).
  assert (u64 (u64 (u64 (rsp - 8) - 8) + 8) = u64 (rsp - 8)) as E3
    by (rewrite u64_add_l;
        replace (u64 (rsp - 8) - 8 + 8) with (u64 (rsp - 8)) by lia;
        apply u64_idem).
  split; [|split; [|split; [|split]]].
  - unfold X86.bignum_6.
    rewrite load_bytes_store64_other.
    + rewrite load_bytes_store64_other; [reflexivity|].
      intros j Hj. rewrite E1.
      apply (disjoint_far (rsp - 16) 16 rcx 48 j Hdis); lia.
    + intros j Hj. rewrite E2.
      apply (disjoint_far (rsp - 16) 16 rcx 48 j Hdis); lia.
  - now apply load64_store64_same.
  - rewrite E3. unfold X86.load64.
    rewrite load_bytes_store64_other.
    + now apply load64_store64_same.
    + intros j Hj. rewrite <- E3 at 1.
      rewrite u64_add_l.
      replace (u64 (u64 (rsp - 8) - 8) + 8 + j)
        with (u64 (u64 (rsp - 8) - 8) + (8 + j)) by lia.
      rewrite u64_offset; lia.
  - rewrite E3, u64_add_l.
    replace (u64 (rsp - 8) + 8 + 8) with (u64 (rsp - 8) + 16) by lia.
    rewrite u64_add_l. f_equal. lia.
  - intros q Hq. rewrite !byte_at_store64.
    assert (forall base, 0 <= base -> base + 8 <= 16 ->
              (u64 (u64 q - u64 (rsp - 16 + base)) <? 8) = false) as Hfar.
    { intros base Hb0 Hb. apply Z.ltb_ge.
      destruct (Z.lt_ge_cases (u64 (u64 q - u64 (rsp - 16 + base))) 8)
        as [Hlt|]; [exfalso|assumption].
      pose proof (u64_range (u64 q - u64 (rsp - 16 + base))) as Hr.
      unfold in_u64 in Hr.
      apply (Hq (base + u64 (u64 q - u64 (rsp - 16 + base))));
        [lia|].
      set (off := u64 (u64 q - u64 (rsp - 16 + base))).
      transitivity (u64 (u64 (rsp - 16 + base) + off)).
      - unfold off. rewrite u64_add_sub. symmetry. apply u64_idem.
      - rewrite u64_add_l. f_equal. lia. }
    rewrite E2, (Hfar 0) by lia. rewrite E1, (Hfar 8) by lia. reflexivity.
Qed.

(** X21: [bignum_nonzero_6] under the Microsoft x64 ABI.  Called with RCX
    pointing to the six words, RDI and RSI holding 64-bit values, and the
    16 bytes below the stack pointer apart from the 48 bytes of the number,
    the routine returns with RAX = 1 if the number is not zero and RAX = 0
    if it is; RDI and RSI, which it saves on the stack, are restored, RCX
    is kept, the return address is popped, and memory is changed in the 16
    bytes below the stack pointer only. *)
Theorem bignum_nonzero_6_windows (s : X86.machine) :
  in_u64 (X86.regs s X86.RDI) ->
  in_u64 (X86.regs s X86.RSI) ->
  X86.disjoint (X86.regs s X86.RSP - 16) 16 (X86.regs s X86.RCX) 48 ->
  X86.regs (X86.run (X86.bignum_nonzero_6 true) s) X86.RAX =
    (if X86.bignum_6 (X86.mem s) (X86.regs s X86.RCX) =? 0 then 0 else 1) /\
  X86.regs (X86.run (X86.bignum_nonzero_6 true) s) X86.RDI =
    X86.regs s X86.RDI /\
  X86.regs (X86.run (X86.bignum_nonzero_6 true) s) X86.RSI =
    X86.regs s X86.RSI /\
  X86.regs (X86.run (X86.bignum_nonzero_6 true) s) X86.RCX =
    X86.regs s X86.RCX /\
  X86.regs (X86.run (X86.bignum_nonzero_6 true) s) X86.RSP =
    u64 (X86.regs s X86.RSP + 8) /\
  (forall q,
     (forall i, 0 <= i < 16 -> u64 q <> u64 (X86.regs s X86.RSP - 16 + i)) ->
     X86.byte_at (X86.mem (X86.run (X86.bignum_nonzero_6 true) s)) q =
     X86.byte_at (X86.mem s) q).
Proof.
  destruct s as [rg m f].
  change (X86.mem (X86.mk_machine rg m f)) with m.
  change (X86.regs (X86.mk_machine rg m f)) with rg.
  intros Hrdi Hrsi Hdis.
  destruct (windows_stack m (rg X86.RSP) (rg X86.RDI) (rg X86.RSI)
              (rg X86.RCX) Hrdi Hrsi Hdis)
    as [Hnum [Hpop1 [Hpop2 [Hsp Hmem]]]].
  cbv zeta in Hnum, Hpop1, Hpop2, Hsp, Hmem.
  rewrite <- Hnum, <- or_of_words_zero.
  run_routine.
  match goal with
  | |- context [?r =? 0] => destruct (Z.eqb_spec r 0) as [Hz | Hnz]
  end; (split; [|split; [|split; [|split; [|split]]]]);
    try exact Hz; try exact Hpop1; try exact Hpop2; try exact Hsp;
    try exact Hmem; reflexivity.
Qed.

Lemma bignum_nonzero_6_windows_witness :
  in_u64 77 /\
  in_u64 0 /\
  X86.disjoint (65536 - 16) 16 4096 48 /\
  X86.regs
    (X86.run (X86.bignum_nonzero_6 true)
       (X86.machine_of 77 4096 65536 (X86.memory_of 4096 [0; 0; 3])))
    X86.RDI = 77.
Proof.
  assert (in_u64 77) as H77 by (unfold in_u64, UINT64_MAX; lia).
  assert (in_u64 0) as H0 by (unfold in_u64, UINT64_MAX; lia).
  assert (X86.disjoint (65536 - 16) 16 4096 48) as Hdis.
  { intros i j Hi Hj. unfold u64. rewrite !Z.mod_small by lia. lia. }
  split; [exact H77|]. split; [exact H0|]. split; [exact Hdis|].
  exact (proj1 (proj2 (bignum_nonzero_6_windows
                         (X86.machine_of 77 4096 65536
                            (X86.memory_of 4096 [0; 0; 3]))
                         H77 H0 Hdis))).
Defined.

(** Where the stack overlaps the number the precondition is a real one:
    with RSP 10 bytes above a number that is zero, the saved RDI lands in
    the number and the routine answers 1. *)
Example bignum_nonzero_6_windows_overlap :
  X86.bignum_6 (X86.memory_of 4096 []) 4096 = 0 /\
  X86.regs
    (X86.run (X86.bignum_nonzero_6 true)
       (X86.machine_of 77 4096 4106 (X86.memory_of 4096 []))) X86.RAX = 1.
Proof. split; vm_compute; reflexivity. Qed.

Lemma digest_rules_compared_witness :
  is_md_fips_approved_for_verifying NID_sha1 = 1 /\
  is_md_fips_approved_for_signing NID_sha1 <> 1.
Proof.
  destruct (digest_rules_compared NID_sha1) as [_ [_ [Hs [Hv _]]]].
  split.
  - apply Hv. left. reflexivity.
  - intros H. apply Hs in H. cbn [In] in H.
    destruct H as [H|[H|[H|[H|H]]]]; try discriminate H; exact H.
Defined.
